(** * op_engine: clip placement, timeline mix-down, player and sine generator

    A shallow embedding of the audio engine of the [op_engine] crate
    (src/op_engine/src).  Rust's [usize] is [nat]; [Time] is a sample index.
    Audio samples ([f32]) are exact rationals [Q]; where the source does
    arithmetic on them (the mix and the export) the f32 rounding of each
    result is written out by [Sample.f32_round].  The release build is
    modelled: [debug_assert!] is compiled out. *)

From Stdlib Require Import QArith Qminmax Qround ZArith Lia Lra Floats Uint63.
From Stdlib Require Import Reals.
From Stdlib Require Import Sorted.
From stdpp Require Import base gmap list strings.

Open Scope nat_scope.

(** ** f32 samples *)
Module Sample.

(** Nearest integer to [n / d], ties to even. *)
Definition round_half_even (n : Z) (d : positive) : Z :=
  let f := Z.div n (Zpos d) in
  let r := (n - f * Zpos d)%Z in
  match Z.compare (2 * r) (Zpos d) with
  | Lt => f
  | Gt => (f + 1)%Z
  | Eq => if Z.even f then f else (f + 1)%Z
  end.

(** floor(log2 (a / d)) for positive [a], [d]. *)
Definition log2_floor_q (a : Z) (d : Z) : Z :=
  let k0 := (Z.log2 a - Z.log2 d)%Z in
  if (0 <=? k0)%Z
  then (if (d * 2 ^ k0 <=? a)%Z then k0 else k0 - 1)%Z
  else (if (d <=? a * 2 ^ (- k0))%Z then k0 else k0 - 1)%Z.

(** IEEE-754 binary32 round-to-nearest-even of a rational (24-bit
    significand, subnormals down to 2^-149).  Overflow to infinity is not
    modelled: the sums and products below stay far inside the f32 range. *)
Definition f32_round (q : Q) : Q :=
  let n := Qnum q in
  let d := Zpos (Qden q) in
  if (n =? 0)%Z then 0%Q else
  let a := Z.abs n in
  let e := Z.max (log2_floor_q a d - 23) (-149) in
  let v :=
    if (0 <=? e)%Z
    then inject_Z (round_half_even a (Z.to_pos (d * 2 ^ e)) * 2 ^ e)
    else Qmake (round_half_even (a * 2 ^ (- e)) (Qden q)) (Z.to_pos (2 ^ (- e))) in
  if (n <? 0)%Z then Qopp v else v.

Definition f32_add (a b : Q) : Q := f32_round (a + b).
Definition f32_mul (a b : Q) : Q := f32_round (a * b).

(** [x.max(-1.0).min(1.0)] *)
Definition clamp_unit (x : Q) : Q := Qmin (Qmax x (-1)) 1.

(** Rust's [f as i16]: truncation toward zero, saturating at the bounds of
    [i16] (a rational is never NaN). *)
Definition f32_as_i16 (x : Q) : Z :=
  let t := Z.quot (Qnum x) (Zpos (Qden x)) in
  Z.max (-32768) (Z.min 32767 t).

End Sample.

(** ** clip.rs and clip_database.rs *)

(** [struct Clip { data: Vec<f32> }] *)
Record Clip := { data : list Q }.

(** [Clip::len] *)
Definition clip_len (c : Clip) : nat := length (data c).

Definition ClipId := nat.

Module ClipDatabase.

(** [struct ClipDatabase { clips: HashMap<ClipId, Clip> }] *)
Record t := { clips : gmap nat Clip }.

Definition new : t := {| clips := ∅ |}.

(** [add]: the fresh id is the current number of entries. *)
Definition add (db : t) (clip : Clip) : t * ClipId :=
  let id := size (clips db) in
  ({| clips := <[id := clip]> (clips db) |}, id).

Definition get (db : t) (id : ClipId) : option Clip := clips db !! id.

End ClipDatabase.

(** ** track.rs *)

Definition Time := nat.

(** [struct ClipInstance { time: Time, clip_id: ClipId }] *)
Record ClipInstance := { time : Time; clip_id : ClipId }.

Definition ci_start (c : ClipInstance) : Time := time c.

Definition ci_len (db : ClipDatabase.t) (c : ClipInstance) : option nat :=
  option_map clip_len (ClipDatabase.get db (clip_id c)).

Definition ci_end (db : ClipDatabase.t) (c : ClipInstance) : option Time :=
  option_map (fun len => time c + len) (ci_len db c).

(** The ordering of [Option<usize>]: [None] is below every [Some]. *)
Definition option_leb (a b : option nat) : bool :=
  match a, b with
  | None, _ => true
  | Some _, None => false
  | Some x, Some y => x <=? y
  end.

(** [Iterator::max_by_key]: the last of several maximal elements. *)
Fixpoint fold_max_by {A} (le : A -> A -> bool) (acc : A) (l : list A) : A :=
  match l with
  | [] => acc
  | x :: r => fold_max_by le (if le acc x then x else acc) r
  end.

Definition max_by_key {A K} (kle : K -> K -> bool) (key : A -> K) (l : list A)
  : option A :=
  match l with
  | [] => None
  | x :: r => Some (fold_max_by (fun a b => kle (key a) (key b)) x r)
  end.

(** [Iterator::min_by_key]: the first of several minimal elements. *)
Fixpoint fold_min_by {A} (le : A -> A -> bool) (acc : A) (l : list A) : A :=
  match l with
  | [] => acc
  | x :: r => fold_min_by le (if le acc x then acc else x) r
  end.

Definition min_by_key {A K} (kle : K -> K -> bool) (key : A -> K) (l : list A)
  : option A :=
  match l with
  | [] => None
  | x :: r => Some (fold_min_by (fun a b => kle (key a) (key b)) x r)
  end.

(** [DoubleEndedIterator::rfind]: the last element satisfying [p]. *)
Fixpoint rfind {A} (p : A -> bool) (l : list A) : option A :=
  match l with
  | [] => None
  | x :: r =>
      match rfind p r with
      | Some y => Some y
      | None => if p x then Some x else None
      end
  end.

(** [copy_clip_data]: returns the new buffer and the number of samples
    copied.  Its debug assertions are compiled out in a release build; every
    call in [Track::render] has [buf_start <= buf.len()], and
    [clip_start < clip.data.len()] except for an empty clip in the loop,
    where both subtractions still give 0. *)
Definition copy_clip_data (clip : Clip) (buf : list Q)
    (clip_start buf_start max_copy : nat) : list Q * nat :=
  let buf_space := length buf - buf_start in
  let clip_space := length (data clip) - clip_start in
  let actual_copy := Nat.min max_copy (Nat.min buf_space clip_space) in
  if actual_copy =? 0 then (buf, 0) else
  (firstn buf_start buf
     ++ firstn actual_copy (skipn clip_start (data clip))
     ++ skipn (buf_start + actual_copy) buf,
   actual_copy).

Module Track.

(** [struct Track { clips: Vec<ClipInstance> }] *)
Record t := { clips : list ClipInstance }.

Definition new : t := {| clips := [] |}.

Definition instantiate_clip (tr : t) (clip_id : ClipId) (time : Time) : t :=
  {| clips := clips tr ++ [{| time := time; clip_id := clip_id |}] |}.

(** Modelled from the spec: [Track::add_clip(time, clip)], called by
    [Player::write_recorded_clip] and [Project::add_clip] but absent from
    track.rs.  Spec: "insert as a new Clip into the ClipStore, place it on
    armedTrack at recordStart"; placing appends to the track. *)
Definition add_clip (tr : t) (db : ClipDatabase.t) (time : Time) (clip : Clip)
  : t * ClipDatabase.t :=
  let (db', id) := ClipDatabase.add db clip in
  (instantiate_clip tr id time, db').

Definition last_clip (db : ClipDatabase.t) (tr : t) : option ClipInstance :=
  max_by_key option_leb (ci_end db) (clips tr).

Definition next_clip (tr : t) (t0 : Time) : option ClipInstance :=
  min_by_key Nat.leb ci_start (List.filter (fun c => t0 <? ci_start c) (clips tr)).

(** [c.start() <= t && c.end(database) > Some(t)] *)
Definition covers (db : ClipDatabase.t) (t0 : Time) (c : ClipInstance) : bool :=
  (ci_start c <=? t0) &&
  match ci_end db c with Some e => t0 <? e | None => false end.

Definition clip_at (db : ClipDatabase.t) (tr : t) (t0 : Time) : option ClipInstance :=
  rfind (covers db t0) (clips tr).

Definition len (db : ClipDatabase.t) (tr : t) : nat :=
  match last_clip db tr with
  | Some c => match ci_end db c with Some e => e | None => 0 end
  | None => 0
  end.

(** The [while let Some(clip_instance) = self.next_clip(time)] loop.  Each
    iteration moves [time] to a start strictly greater than before, so it
    runs at most [length (clips tr)] times; [render_loop_fuel] shows that
    this fuel is never the reason it stops. *)
Fixpoint render_loop (db : ClipDatabase.t) (tr : t) (start_time end_time : Time)
    (fuel : nat) (time : Time) (buf : list Q) : list Q :=
  match fuel with
  | 0 => buf
  | S fuel' =>
      match next_clip tr time with
      | None => buf
      | Some ci =>
          match ClipDatabase.get db (clip_id ci) with
          | None => buf
          | Some clip =>
              let time := ci_start ci in
              if end_time <? time then buf else
              render_loop db tr start_time end_time fuel' time
                (fst (copy_clip_data clip buf 0 (time - start_time) (clip_len clip)))
          end
      end
  end.

(** [Track::render] into a buffer of [n] samples (its previous contents are
    overwritten by [buf.fill(0.0)]). *)
Definition render (db : ClipDatabase.t) (tr : t) (start_time : Time) (n : nat)
  : list Q :=
  let buf := repeat 0%Q n in
  if len db tr <=? start_time then buf else
  let end_time := start_time + n in
  let buf :=
    match clip_at db tr start_time with
    | Some ci =>
        match ClipDatabase.get db (clip_id ci) with
        | Some clip =>
            fst (copy_clip_data clip buf (start_time - ci_start ci) 0 (clip_len clip))
        | None => buf
        end
    | None => buf
    end in
  render_loop db tr start_time end_time (length (clips tr)) start_time buf.

(** [Track::render_all]: a buffer of [end] samples rendered from 0, where
    [end] is the end of [last_clip]; [vec![0.0; 0]] when there is none. *)
Definition render_all (db : ClipDatabase.t) (tr : t) : list Q :=
  match last_clip db tr with
  | Some c =>
      match ci_end db c with
      | Some e => render db tr 0 e
      | None => []
      end
  | None => []
  end.

(** [Track::iter_clips] *)
Definition iter_clips (tr : t) : list ClipInstance := clips tr.

End Track.


(** ** timeline.rs and lib.rs *)

(** [mix] (lib.rs): sample [i] is the f32 sum of the sources long enough to
    have a sample [i], clamped to [-1, 1]. *)
Definition mix_sample (sources : list (list Q)) (i : nat) : Q :=
  Sample.clamp_unit
    (fold_left (fun acc src =>
                  if i <? length src then Sample.f32_add acc (nth i src 0%Q) else acc)
               sources 0%Q).

Definition mix (sources : list (list Q)) (n : nat) : list Q :=
  map (mix_sample sources) (seq 0 n).

Module Timeline.

(** [struct Timeline { tracks: Vec<Track> }] *)
Record t := { tracks : list Track.t }.

Definition new : t := {| tracks := repeat Track.new 4 |}.

(** [Timeline::len]: [.max().unwrap()]; [None] is the panic of [unwrap]
    on an empty [tracks]. *)
Definition len (db : ClipDatabase.t) (tl : t) : option nat :=
  match map (Track.len db) (tracks tl) with
  | [] => None
  | x :: r => Some (fold_left Nat.max r x)
  end.

(** [Timeline::render] (= [render_exclude] with nothing excluded);
    [None] is a panic. *)
Definition render (db : ClipDatabase.t) (tl : t) (start_time n : nat)
  : option (list Q) :=
  match len db tl with
  | None => None
  | Some l =>
      if l <=? start_time then Some (repeat 0%Q n)
      else Some (mix (map (fun tr => Track.render db tr start_time n) (tracks tl)) n)
  end.

(** [iter().enumerate()] *)
Definition enumerate {A} (l : list A) : list (nat * A) := combine (seq 0 (length l)) l.

(** [Timeline::render_exclude]: the tracks whose index is in [exclude] are
    left out of the mix; [None] is a panic. *)
Definition render_exclude (db : ClipDatabase.t) (tl : t) (start_time n : nat)
    (exclude : list nat) : option (list Q) :=
  match len db tl with
  | None => None
  | Some l =>
      if l <=? start_time then Some (repeat 0%Q n)
      else Some (mix (map (fun '(_, tr) => Track.render db tr start_time n)
                          (List.filter (fun '(i, _) => negb (existsb (Nat.eqb i) exclude))
                             (enumerate (tracks tl)))) n)
  end.

(** [Timeline::render_all] *)
Definition render_all (db : ClipDatabase.t) (tl : t) : option (list Q) :=
  match tracks tl with
  | [] => Some []
  | _ => match len db tl with
         | None => None
         | Some l => render db tl 0 l
         end
  end.

(** [Timeline::iter_clips]: each instance with the index of its track. *)
Definition iter_clips (tl : t) : list (nat * ClipInstance) :=
  flat_map (fun '(i, tr) => map (fun c => (i, c)) (Track.iter_clips tr))
    (enumerate (tracks tl)).

End Timeline.

(** ** project.rs *)

(** [project.rs] keeps the tracks of the project; [player.rs] reaches the same
    tracks as [project.timeline.tracks], and the clips they reference live in
    the project's [ClipDatabase].  The record follows that layout. *)
Module Project.

Record t := {
  sample_rate : nat;
  timeline : Timeline.t;
  database : ClipDatabase.t
}.

Definition tracks (p : t) : list Track.t := Timeline.tracks (timeline p).

Definition new : t :=
  {| sample_rate := 44100; timeline := Timeline.new; database := ClipDatabase.new |}.

(** [Project::len] (same code as [Timeline::len]). *)
Definition len (p : t) : option nat := Timeline.len (database p) (timeline p).

(** [Project::render]: [None] is a panic. *)
Definition render (p : t) (start_time n : nat) : option (list Q) :=
  match len p with
  | None => None
  | Some l =>
      if l <=? start_time then Some (repeat 0%Q n)
      else Some (mix (map (fun tr => Track.render (database p) tr start_time n)
                          (tracks p)) n)
  end.

(** [Project::render_all] *)
Definition render_all (p : t) : option (list Q) :=
  match tracks p with
  | [] => Some []
  | _ => match len p with
         | None => None
         | Some l => render p 0 l
         end
  end.

(** The sample [export] writes for a rendered sample:
    [(sample * i16::MAX as f32) as i16]. *)
Definition export_sample (s : Q) : Z :=
  Sample.f32_as_i16 (Sample.f32_mul s (inject_Z 32767)).

(** The project errors of [ProjectError]. *)
Inductive ProjectError :=
| IoError (cause : string)
| LoadProjectError (message : string) (line column : nat)
| SaveProjectError (message : string).

(** [hound::Error] *)
Inductive HoundError :=
| HoundIoError (cause : string)
| HoundFormatError (message : string)
| HoundTooWide
| HoundUnfinishedSample
| HoundUnsupported
| HoundInvalidSampleFormat.

Section WavExport.
(** The WAV file, through [hound::WavWriter] with the fixed [SPEC]:
    [create] opens it, [write_sample] writes one [i16], [finalize] closes
    it; each may fail with a [hound::Error]. *)
Context {W : Type} (create : string -> HoundError + W)
  (write_sample : W -> Z -> HoundError + W) (finalize : W -> HoundError + unit).

(** [for sample in samples { writer.write_sample(..).map_err(..)?; }]: an
    I/O error is returned, any other error panics ([None]). *)
Fixpoint write_samples (w : W) (xs : list Z) : option (string + W) :=
  match xs with
  | [] => Some (inr w)
  | x :: xs' =>
      match write_sample w x with
      | inl (HoundIoError e) => Some (inl e)
      | inl _ => None
      | inr w' => write_samples w' xs'
      end
  end.

(** [Project::export]: [render_all], then [WavWriter::create(..).expect(..)]
    (a panic on any error), the samples, and [finalize] (an I/O error is
    returned, any other error panics).  [None] is a panic. *)
Definition export (p : t) (path : string) : option (ProjectError + unit) :=
  match render_all p with
  | None => None
  | Some samples =>
      match create path with
      | inl _ => None
      | inr w =>
          match write_samples w (map export_sample samples) with
          | None => None
          | Some (inl e) => Some (inl (IoError e))
          | Some (inr w') =>
              match finalize w' with
              | inr _ => Some (inr tt)
              | inl (HoundIoError e) => Some (inl (IoError e))
              | inl _ => None
              end
          end
      end
  end.

(** [write_sample] accepts the values [xs] in order, taking the writer
    from [w] to [w']. *)
Fixpoint writes_ok (w : W) (xs : list Z) (w' : W) : Prop :=
  match xs with
  | [] => w' = w
  | x :: xs' => exists w1, write_sample w x = inr w1 /\ writes_ok w1 xs' w'
  end.

End WavExport.

(** [Path::join(path, "project.json")] *)
Definition project_file (path : string) : string := (path ++ "/project.json")%string.

(** [Project::load]: the file system ([fs::read_to_string]) and the JSON
    deserializer ([serde_json::from_str]) are the arguments [read] and
    [from_str]. *)
Definition load (read : string -> string + string)
    (from_str : string -> t + (string * nat * nat)) (path : string)
  : t + ProjectError :=
  match read (project_file path) with
  | inr io => inr (IoError io)
  | inl serialized =>
      match from_str serialized with
      | inr (msg, line, column) => inr (LoadProjectError msg line column)
      | inl project => inl project
      end
  end.

(** [Project::load_overwrite]: the new value of [*self] and the result. *)
Definition load_overwrite (self : t) (read : string -> string + string)
    (from_str : string -> t + (string * nat * nat)) (path : string)
  : t * (unit + ProjectError) :=
  match load read from_str path with
  | inr e => (self, inr e)
  | inl new => (new, inl tt)
  end.

(** [struct ClipInfo { track, start }] *)
Record ClipInfo := { track : nat; start : Time }.

(** [Project::iter_clips] *)
Definition iter_clips (p : t) : list ClipInfo :=
  flat_map (fun '(i, tr) =>
              map (fun c => {| track := i; start := ci_start c |}) (Track.iter_clips tr))
    (Timeline.enumerate (tracks p)).

(** [Project::add_clip]: the [debug_assert!] is compiled out and indexing
    [self.tracks[track]] out of range panics ([None]); the returned
    reference is to the added clip. *)
Definition add_clip (p : t) (track time : nat) (clip : Clip) : option (t * Clip) :=
  match tracks p !! track with
  | None => None
  | Some tr =>
      let (tr', db') := Track.add_clip tr (database p) time clip in
      Some ({| sample_rate := sample_rate p;
               timeline := {| Timeline.tracks := <[track := tr']> (tracks p) |};
               database := db' |}, clip)
  end.

End Project.

(** ** player.rs *)
Module Player.

(** The fields of [struct Player] that its operations read or write; the
    project behind the [Arc<Mutex<..>>] is passed alongside. *)
Record t := {
  config_sample_rate : nat;
  output_buf : list Q;
  playing_project : bool;
  time : Time;
  recording : bool;
  record_track : nat;
  record_start : Time;
  record_buf : list Q
}.

(** [Player::new] with [BufferSize::Fixed(buf_size)]. *)
Definition new (config_sample_rate buf_size : nat) : t :=
  {| config_sample_rate := config_sample_rate; output_buf := repeat 0%Q buf_size;
     playing_project := false; time := 0; recording := false; record_track := 0;
     record_start := 0; record_buf := [] |}.

(** [write_recorded_clip]: [take] empties [record_buf]; indexing
    [tracks[self.record_track]] out of range panics ([None]). *)
Definition write_recorded_clip (p : t) (pr : Project.t) : option (t * Project.t) :=
  let clip := {| data := record_buf p |} in
  let p' := {| config_sample_rate := config_sample_rate p; output_buf := output_buf p;
               playing_project := playing_project p; time := time p;
               recording := recording p; record_track := record_track p;
               record_start := record_start p; record_buf := [] |} in
  match Project.tracks pr !! record_track p with
  | None => None
  | Some tr =>
      let (tr', db') := Track.add_clip tr (Project.database pr) (record_start p) clip in
      Some (p', {| Project.sample_rate := Project.sample_rate pr;
                   Project.timeline :=
                     {| Timeline.tracks := <[record_track p := tr']> (Project.tracks pr) |};
                   Project.database := db' |})
  end.

(** [set_recording] *)
Definition set_recording (p : t) (pr : Project.t) (recording' : bool)
    (record_track' : nat) : option (t * Project.t) :=
  if Bool.eqb (recording p) recording' then Some (p, pr) else
  let p := {| config_sample_rate := config_sample_rate p; output_buf := output_buf p;
              playing_project := playing_project p; time := time p;
              recording := recording'; record_track := record_track p;
              record_start := record_start p; record_buf := record_buf p |} in
  if negb recording' && negb (bool_decide (record_buf p = [])) then
    write_recorded_clip p pr
  else if recording' then
    Some ({| config_sample_rate := config_sample_rate p; output_buf := output_buf p;
             playing_project := playing_project p; time := time p;
             recording := recording p; record_track := record_track';
             record_start := time p; record_buf := [] |}, pr)
  else Some (p, pr).

(** [as f64] of a [usize] or [u32] below 2^63. *)
Definition usize_as_f64 (n : nat) : float := of_uint63 (Uint63.of_Z (Z.of_nat n)).

Definition usize_max : Z := (2 ^ 64 - 1)%Z.

(** [f as usize]: truncation toward zero, saturating; NaN and negative
    values give 0. *)
Definition f64_as_usize (f : float) : nat :=
  match Prim2SF f with
  | S754_finite false m e => Z.to_nat (Z.min (Z.shiftl (Zpos m) e) usize_max)
  | S754_infinity false => Z.to_nat usize_max
  | _ => 0
  end.

(** [src_samples = (dst_samples as f64 * (src_rate as f64 / dst_rate as f64)) as usize] *)
Definition src_samples (dst_samples src_rate dst_rate : nat) : nat :=
  f64_as_usize (PrimFloat.mul (usize_as_f64 dst_samples)
                  (PrimFloat.div (usize_as_f64 src_rate) (usize_as_f64 dst_rate))).

(** [isize::MAX] *)
Definition isize_max : Z := (2 ^ 63 - 1)%Z.

(** [self.output_buf.resize(n, 0.0)] runs when the buffer is shorter than
    [n]; it panics with a capacity overflow when [n] samples of 4 bytes
    exceed [isize::MAX] bytes.  A failure to allocate a smaller buffer
    depends on the machine (and aborts) and is not modelled. *)
Definition resize_overflows (buf_len n : nat) : bool :=
  (buf_len <? n) && (isize_max <? Z.of_nat n * 4)%Z.

(** When [src_sample_rate != dst_sample_rate] (two [u32] as [f64]: equal
    exactly when the integers are), [Linear::new(self.output_buf[0],
    self.output_buf[1])] panics on a buffer of fewer than 2 samples, and
    dasp's [scale_hz] asserts a positive ratio [src / dst]
    ([assert!(scale > 0.0)]), which fails for a project rate of 0. *)
Definition resample_panics (src_rate dst_rate buf_len : nat) : bool :=
  negb (src_rate =? dst_rate) && ((buf_len <? 2) || (src_rate =? 0)).

(** [self.time += src_samples] on [usize], which wraps in a release build. *)
Definition usize_add (a b : nat) : nat :=
  Z.to_nat ((Z.of_nat a + Z.of_nat b) mod 2 ^ 64)%Z.

Section WriteNextBlock.
(** The project's generator: [next] returns the next sample.  Its samples
    are taken finite here (a [Q]); a generator returning NaN or an infinity
    (as [SineGenerator] does at sample rate 0) changes only the values
    stored in [output_buf] and [record_buf], never which branch runs, the
    playhead or a panic. *)
Context {G : Type} (gen_next : G -> G * Q).

(** [for i in 0..src_samples]: add the generator's sample, clamp, and
    record it when [push]. *)
Fixpoint gen_loop (i k : nat) (buf : list Q) (g : G) (push : bool) (rec : list Q)
  : list Q * G * list Q :=
  match k with
  | 0 => (buf, g, rec)
  | S k' =>
      let (g', sample) := gen_next g in
      let v := Sample.clamp_unit (Sample.f32_add (nth i buf 0%Q) sample) in
      gen_loop (S i) k' (<[i := v]> buf) g' push (if push then rec ++ [sample] else rec)
  end.

(** [write_next_block] up to the writing of the host buffer, which reads
    [output_buf] and changes no state.  [None] is a panic: the division
    [output.len() / channels] by 0 channels, the capacity overflow of the
    resize, the [unwrap] of [Timeline::len] on a timeline without tracks,
    and the indexing and assertion of the resampling.  (The [lock().unwrap()]
    of a poisoned mutex is not modelled.) *)
Definition write_next_block (p : t) (pr : Project.t) (g : G) (out_len channels : nat)
  : option (t * G) :=
  if channels =? 0 then None else
  let dst_samples := out_len / channels in
  let n := src_samples dst_samples (Project.sample_rate pr) (config_sample_rate p) in
  if resize_overflows (length (output_buf p)) n then None else
  let buf := if length (output_buf p) <? n
             then output_buf p ++ repeat 0%Q (n - length (output_buf p))
             else output_buf p in
  let rendered :=
    if playing_project p then
      match Timeline.render (Project.database pr) (Project.timeline pr) (time p) n,
            Timeline.len (Project.database pr) (Project.timeline pr) with
      | Some block, Some l =>
          let time' := usize_add (time p) n in
          Some (block ++ skipn n buf,
                if (l <? time') && negb (recording p) then 0 else time')
      | _, _ => None
      end
    else Some (repeat 0%Q (length buf), time p) in
  match rendered with
  | None => None
  | Some (buf, time') =>
      let '(buf, g', rec) :=
        gen_loop 0 n buf g (playing_project p && recording p) (record_buf p) in
      if resample_panics (Project.sample_rate pr) (config_sample_rate p) (length buf)
      then None
      else
      Some ({| config_sample_rate := config_sample_rate p; output_buf := buf;
               playing_project := playing_project p; time := time';
               recording := recording p; record_track := record_track p;
               record_start := record_start p; record_buf := rec |}, g')
  end.
End WriteNextBlock.

End Player.

(** ** generator/sine.rs *)
Module Sine.

Local Open Scope R_scope.

(** The [f32] values the generator computes with: finite values are reals
    with exact arithmetic (their rounding is not modelled), plus the IEEE-754
    infinities and NaN, whose rules are written out.  The only zero is
    +0.0, the value of [0u32 as f32]. *)
Inductive f32 := Fin (r : R) | Inf (neg : bool) | NaN.

(** [Some true]: negative, [Some false]: positive, [None]: zero. *)
Definition sign_of (r : R) : option bool :=
  match total_order_T r 0 with
  | inleft (left _) => Some true
  | inleft (right _) => None
  | inright _ => Some false
  end.

Definition fadd (x y : f32) : f32 :=
  match x, y with
  | NaN, _ | _, NaN => NaN
  | Fin a, Fin b => Fin (a + b)
  | Fin _, Inf s | Inf s, Fin _ => Inf s
  | Inf s1, Inf s2 => if Bool.eqb s1 s2 then Inf s1 else NaN
  end.

Definition fneg (x : f32) : f32 :=
  match x with Fin a => Fin (- a) | Inf s => Inf (negb s) | NaN => NaN end.

Definition fsub (x y : f32) : f32 := fadd x (fneg y).

Definition fmul (x y : f32) : f32 :=
  match x, y with
  | NaN, _ | _, NaN => NaN
  | Fin a, Fin b => Fin (a * b)
  | Fin a, Inf s | Inf s, Fin a =>
      match sign_of a with None => NaN | Some n => Inf (xorb n s) end
  | Inf s1, Inf s2 => Inf (xorb s1 s2)
  end.

Definition fdiv (x y : f32) : f32 :=
  match x, y with
  | NaN, _ | _, NaN => NaN
  | Fin a, Fin b =>
      match sign_of b with
      | None => match sign_of a with None => NaN | Some n => Inf n end
      | Some _ => Fin (a / b)
      end
  | Fin _, Inf _ => Fin 0
  | Inf s, Fin b =>
      match sign_of b with None => Inf s | Some n => Inf (xorb s n) end
  | Inf _, Inf _ => NaN
  end.

(** [x > y]; every comparison with NaN is false. *)
Definition fgt (x y : f32) : bool :=
  match x, y with
  | Fin a, Fin b => if Rlt_dec b a then true else false
  | Inf s, Fin _ => negb s
  | Fin _, Inf s => s
  | Inf s1, Inf s2 => s2 && negb s1
  | _, _ => false
  end.

Definition flt (x y : f32) : bool := fgt y x.

(** [f32::sin]: NaN for an infinite or NaN argument. *)
Definition fsin (x : f32) : f32 :=
  match x with Fin a => Fin (sin a) | _ => NaN end.

(** [midi_note_to_hz(note) as f32] *)
Definition midi_note_to_hz (note : nat) : f32 :=
  Fin (440 * Rpower 2 ((INR note - 69) / 12)).

(** [std::f32::consts::PI] *)
Definition two_pi : f32 := Fin (2 * PI).

(** [struct SineGenerator] *)
Record t := { sample_rate : nat; phase : f32; note : nat; on : bool }.

Definition new (sample_rate : nat) : t :=
  {| sample_rate := sample_rate; phase := Fin 0; note := 69; on := false |}.

(** [Generator::next]: the new state and the returned sample. *)
Definition next (g : t) : t * f32 :=
  if negb (on g) then (g, Fin 0) else
  let freq := fdiv (midi_note_to_hz (note g)) (Fin (INR (sample_rate g))) in
  let ph := fadd (phase g) (fmul two_pi freq) in
  let ph := if fgt ph two_pi then fsub ph two_pi else ph in
  let ph := if flt ph (Fin 0) then fadd ph two_pi else ph in
  ({| sample_rate := sample_rate g; phase := ph; note := note g; on := on g |}, fsin ph).

(** [midly::MidiMessage] *)
Inductive MidiMessage :=
| NoteOff (key vel : nat)
| NoteOn (key vel : nat)
| Aftertouch (key vel : nat)
| Controller (controller value : nat)
| ProgramChange (program : nat)
| ChannelAftertouch (vel : nat)
| PitchBend (bend : nat).

(** [Generator::handle] *)
Definition handle (g : t) (msg : MidiMessage) : t :=
  match msg with
  | NoteOn key _ => {| sample_rate := sample_rate g; phase := phase g; note := key; on := true |}
  | NoteOff key _ =>
      if Nat.eqb (note g) key
      then {| sample_rate := sample_rate g; phase := phase g; note := note g; on := false |}
      else g
  | _ => g
  end.

(** The states [SineGenerator::new(sample_rate)] reaches through [handle]
    and [next]. *)
Inductive reachable (sr : nat) : t -> Prop :=
| reach_new : reachable sr (new sr)
| reach_handle g msg : reachable sr g -> reachable sr (handle g msg)
| reach_next g : reachable sr g -> reachable sr (fst (next g)).

(** A returned sample in [-1, 1]. *)
Definition in_unit (x : f32) : Prop :=
  match x with Fin r => -1 <= r <= 1 | _ => False end.

End Sine.

(** ** clip.rs: the samples of [Clip::load_wav] *)
Module Wav.

(** [hound::WavSpec], the fields [load_wav] reads ([sample_rate] and
    [sample_format] are only checked by [debug_assert_eq!]). *)
Record WavSpec := { channels : nat; bits_per_sample : nat }.

(** [enum ClipError] *)
Inductive ClipError :=
| ClipReadError (source : string)
| UnsupportedSampleFormat (bits_per_sample : nat).

(** [collect::<Result<Vec<_>, _>>()]: the first [Err] in order, else all values. *)
Fixpoint collect_results (l : list (string + Z)) : string + list Z :=
  match l with
  | [] => inr []
  | inl e :: _ => inl e
  | inr x :: l' =>
      match collect_results l' with
      | inl e => inl e
      | inr xs => inr (x :: xs)
      end
  end.

(** [Iterator::step_by(n)] for [n > 0]: yields the first element, then
    skips [n - 1] elements before each further one; [skip] counts the
    elements still to skip. *)
Fixpoint step_by_from {A} (n skip : nat) (l : list A) : list A :=
  match l with
  | [] => []
  | x :: l' =>
      match skip with
      | 0 => x :: step_by_from n (n - 1) l'
      | S skip' => step_by_from n skip' l'
      end
  end.

Definition step_by {A} (n : nat) (l : list A) : list A := step_by_from n 0 l.

(** A value of [i32] wrapped as the release build does. *)
Definition i32_wrap (z : Z) : Z := ((z + 2 ^ 31) mod 2 ^ 32 - 2 ^ 31)%Z.

(** [(1 << spec.bits_per_sample) / 2 - 1] in [i32]: the release build masks
    the shift amount to its low 5 bits and wraps; [/] truncates. *)
Definition wav_scale (bits : nat) : Z :=
  i32_wrap (Z.quot (i32_wrap (Z.shiftl 1 (Z.of_nat bits mod 32))) 2 - 1).

(** [x as f32] for an [i32]. *)
Definition i32_as_f32 (z : Z) : Q := Sample.f32_round (inject_Z z).

(** [a / b] in [f32]; a zero divisor (infinity or NaN) is not modelled, as
    for the overflow of [Sample.f32_round]. *)
Definition f32_div (a b : Q) : Q := Sample.f32_round (a / b).

(** [s as f32 / ((1 << spec.bits_per_sample) / 2 - 1) as f32] *)
Definition int_sample_to_f32 (bits : nat) (s : Z) : Q :=
  f32_div (i32_as_f32 s) (i32_as_f32 (wav_scale bits)).

(** [Clip::load_wav]: [open] stands for [WavReader::open] and the reader's
    [samples::<i32>()], an error message or the spec and the samples (each
    a read error or a value).  [None] is the panic of [step_by(0)]. *)
Definition load_wav (open : string -> string + (WavSpec * list (string + Z)))
    (path : string) : option (ClipError + Clip) :=
  match open path with
  | inl e => Some (inl (ClipReadError e))
  | inr (spec, samples) =>
      match collect_results samples with
      | inl e => Some (inl (ClipReadError e))
      | inr raw =>
          if channels spec =? 0 then None
          else Some (inr {| data := step_by (channels spec)
                                      (map (int_sample_to_f32 (bits_per_sample spec)) raw) |})
      end
  end.

End Wav.

(** ** Silence of a rendered track *)



(** ** Database invariant *)

(** Every id of the database is below its number of entries: true of the
    empty database and kept by [ClipDatabase::add], so [add] never reuses an
    id. *)
Definition ids_below_size (db : ClipDatabase.t) : Prop :=
  map_Forall (fun id (_ : Clip) => id < size (ClipDatabase.clips db)) (ClipDatabase.clips db).

(** ** Fixtures: concrete databases, tracks and projects *)
Module Fixtures.

(** A database built by [ClipDatabase::add] from clip data, ids 0, 1, ... *)
Definition mk_db (cs : list (list Q)) : ClipDatabase.t :=
  fold_left (fun db c => fst (ClipDatabase.add db {| data := c |})) cs ClipDatabase.new.

(** A track built by [Track::instantiate_clip] from (time, clip id) pairs,
    in insertion order. *)
Definition mk_track (ps : list (nat * nat)) : Track.t :=
  fold_left (fun tr '(t0, id) => Track.instantiate_clip tr id t0) ps Track.new.

(** A project at 44100 Hz whose track 0 holds [clip] at time 0. *)
Definition mk_project (clip : list Q) : Project.t :=
  let (db, id) := ClipDatabase.add ClipDatabase.new {| data := clip |} in
  {| Project.sample_rate := 44100;
     Project.timeline :=
       {| Timeline.tracks :=
            <[0 := Track.instantiate_clip Track.new id 0]> (Timeline.tracks Timeline.new) |};
     Project.database := db |}.

End Fixtures.

(** * Properties *)

Import Fixtures.

(** ** The unit tests of track.rs *)
Module TrackTests.

Example overlapping :
  Track.render (mk_db [[1;1;1;1]; [2;2;2;2]]%Q) (mk_track [(0,0); (2,1)]%nat) 0 6
  = [1;1;2;2;2;2]%Q.
Proof. vm_compute. reflexivity. Qed.

Example short_overlapping :
  Track.render (mk_db [[1;1;1;1;1;1]; [2;2]]%Q) (mk_track [(0,0); (2,1)]%nat) 0 6
  = [1;1;2;2;1;1]%Q.
Proof. vm_compute. reflexivity. Qed.

Example past_bounds :
  Track.render (mk_db [[1;1]; [2;2]]%Q) (mk_track [(0,0); (3,1)]%nat) 1 3
  = [1;0;2]%Q.
Proof. vm_compute. reflexivity. Qed.

Example beyond_all_clips :
  Track.render (mk_db [[1;1]]%Q) (mk_track [(2,0)]%nat) 100 4 = [0;0;0;0]%Q.
Proof. vm_compute. reflexivity. Qed.

End TrackTests.

(** ** Fuel of the render loop *)

Lemma fold_min_by_in {A} (le : A -> A -> bool) (acc : A) (l : list A) :
  fold_min_by le acc l = acc \/ In (fold_min_by le acc l) l.
Proof.
  revert acc. induction l as [|x r IH]; intros acc; simpl; [left; reflexivity|].
  destruct (IH (if le acc x then acc else x)) as [E|E].
  - rewrite E. destruct (le acc x); [left|right; left]; reflexivity.
  - right; right; exact E.
Qed.

Lemma min_by_key_in {A K} (kle : K -> K -> bool) (key : A -> K) (l : list A) x :
  min_by_key kle key l = Some x -> In x l.
Proof.
  destruct l as [|y r]; simpl; [discriminate|]. intros H; injection H as <-.
  destruct (fold_min_by_in (fun a b => kle (key a) (key b)) y r) as [E|E].
  - rewrite E. left; reflexivity.
  - right; exact E.
Qed.

Lemma filter_length_le {A} (p q : A -> bool) (l : list A) :
  (forall x, In x l -> p x = true -> q x = true) ->
  length (List.filter p l) <= length (List.filter q l).
Proof.
  induction l as [|x r IH]; intros H; simpl; [lia|].
  assert (IH' := IH (fun y Hy => H y (or_intror Hy))).
  destruct (p x) eqn:Ep.
  - rewrite (H x (or_introl eq_refl) Ep). simpl. lia.
  - destruct (q x); simpl; lia.
Qed.

Lemma filter_length_lt {A} (p q : A -> bool) (l : list A) y :
  (forall x, In x l -> p x = true -> q x = true) ->
  In y l -> q y = true -> p y = false ->
  length (List.filter p l) < length (List.filter q l).
Proof.
  induction l as [|x r IH]; intros H Hy Hq Hp; [destruct Hy|].
  assert (Hr : forall z, In z r -> p z = true -> q z = true)
    by (intros z Hz; apply H; right; exact Hz).
  simpl. destruct Hy as [<-|Hy].
  - rewrite Hp, Hq. simpl. pose proof (filter_length_le p q r Hr). lia.
  - specialize (IH Hr Hy Hq Hp).
    destruct (p x) eqn:Ep.
    + rewrite (H x (or_introl eq_refl) Ep). simpl. lia.
    + destruct (q x); simpl; lia.
Qed.

(** Each iteration of the [while let] loop moves [time] to the start of an
    instance starting after it, so the instances still ahead of [time] bound
    the iterations: any fuel at least their number gives the same buffer. *)
Lemma render_loop_fuel db tr st et f f' t0 buf :
  length (List.filter (fun c => t0 <? ci_start c) (Track.clips tr)) <= f -> f <= f' ->
  Track.render_loop db tr st et f t0 buf = Track.render_loop db tr st et f' t0 buf.
Proof.
  revert f' t0 buf. induction f as [|f IH]; intros f' t0 buf Hc Hf.
  - destruct f' as [|f']; [reflexivity|]. simpl.
    unfold Track.next_clip.
    destruct (List.filter _ (Track.clips tr)); [reflexivity|simpl in Hc; lia].
  - destruct f' as [|f']; [lia|]. simpl.
    destruct (Track.next_clip tr t0) as [ci|] eqn:En; [|reflexivity].
    destruct (ClipDatabase.get db (clip_id ci)); [|reflexivity].
    destruct (et <? ci_start ci); [reflexivity|].
    apply IH; [|lia].
    unfold Track.next_clip in En. apply min_by_key_in in En.
    apply filter_In in En as [Hin Hlt]. apply Nat.ltb_lt in Hlt.
    assert (length (List.filter (fun c => ci_start ci <? ci_start c) (Track.clips tr))
            < length (List.filter (fun c => t0 <? ci_start c) (Track.clips tr))).
    { apply (filter_length_lt _ _ _ ci); [| exact Hin | apply Nat.ltb_lt; exact Hlt
                                         | apply Nat.ltb_ge; lia].
      intros x _ Hx. apply Nat.ltb_lt in Hx. apply Nat.ltb_lt. lia. }
    lia.
Qed.

(** [Track::render]'s loop, run with fuel [length (clips tr)], is the loop run
    with any larger fuel. *)
Lemma render_loop_fuel_render db tr st et f buf :
  length (Track.clips tr) <= f ->
  Track.render_loop db tr st et (length (Track.clips tr)) st buf
  = Track.render_loop db tr st et f st buf.
Proof.
  intros Hf. apply render_loop_fuel; [|exact Hf].
  clear. induction (Track.clips tr) as [|x r IH]; simpl; [lia|].
  destruct (st <? ci_start x); simpl; lia.
Qed.

(** ** Range of a track's render *)

Lemma copy_clip_data_length clip buf cs bs mc :
  length (fst (copy_clip_data clip buf cs bs mc)) = length buf.
Proof.
  unfold copy_clip_data.
  destruct (Nat.eqb_spec (Nat.min mc (Nat.min (length buf - bs) (length (data clip) - cs))) 0)
    as [E|E]; [reflexivity|].
  simpl. rewrite !length_app, !length_firstn, length_skipn, length_skipn. lia.
Qed.

Lemma copy_clip_data_Forall (P : Q -> Prop) clip buf cs bs mc :
  Forall P buf -> Forall P (data clip) ->
  Forall P (fst (copy_clip_data clip buf cs bs mc)).
Proof.
  intros Hb Hc. unfold copy_clip_data.
  destruct (_ =? 0); [exact Hb|]. simpl.
  apply Forall_app; split; [apply Forall_take; exact Hb|].
  apply Forall_app; split; [apply Forall_take, Forall_drop; exact Hc|].
  apply Forall_drop; exact Hb.
Qed.

Lemma get_Forall (P : Q -> Prop) db id clip :
  map_Forall (fun _ c => Forall P (data c)) (ClipDatabase.clips db) ->
  ClipDatabase.get db id = Some clip -> Forall P (data clip).
Proof. intros Hdb Hget. exact (Hdb id clip Hget). Qed.

Lemma render_loop_length db tr st et fuel t0 buf :
  length (Track.render_loop db tr st et fuel t0 buf) = length buf.
Proof.
  revert t0 buf. induction fuel as [|fuel IH]; intros t0 buf; simpl; [reflexivity|].
  destruct (Track.next_clip tr t0) as [ci|]; [|reflexivity].
  destruct (ClipDatabase.get db (clip_id ci)) as [clip|]; [|reflexivity].
  destruct (et <? ci_start ci); [reflexivity|].
  rewrite IH. apply copy_clip_data_length.
Qed.

Lemma render_loop_Forall (P : Q -> Prop) db tr st et fuel t0 buf :
  map_Forall (fun _ c => Forall P (data c)) (ClipDatabase.clips db) ->
  Forall P buf -> Forall P (Track.render_loop db tr st et fuel t0 buf).
Proof.
  intros Hdb. revert t0 buf. induction fuel as [|fuel IH]; intros t0 buf Hb; simpl; [exact Hb|].
  destruct (Track.next_clip tr t0) as [ci|]; [|exact Hb].
  destruct (ClipDatabase.get db (clip_id ci)) as [clip|] eqn:Eg; [|exact Hb].
  destruct (et <? ci_start ci); [exact Hb|].
  apply IH, copy_clip_data_Forall; [exact Hb|]. exact (get_Forall P db _ _ Hdb Eg).
Qed.

Lemma render_length db tr st n : length (Track.render db tr st n) = n.
Proof.
  unfold Track.render.
  destruct (Track.len db tr <=? st); [apply repeat_length|].
  rewrite render_loop_length.
  destruct (Track.clip_at db tr st) as [ci|]; [|apply repeat_length].
  destruct (ClipDatabase.get db (clip_id ci)) as [clip|]; [|apply repeat_length].
  rewrite copy_clip_data_length. apply repeat_length.
Qed.

(** Every sample [Track::render] writes is a [0.0] from [buf.fill(0.0)] or
    copied from a clip of the database. *)
Lemma render_Forall (P : Q -> Prop) db tr st n :
  P 0%Q ->
  map_Forall (fun _ c => Forall P (data c)) (ClipDatabase.clips db) ->
  Forall P (Track.render db tr st n).
Proof.
  intros H0 Hdb.
  assert (Hz : Forall P (repeat 0%Q n))
    by (clear -H0; induction n; simpl; constructor; auto).
  unfold Track.render.
  destruct (Track.len db tr <=? st); [exact Hz|].
  apply render_loop_Forall; [exact Hdb|].
  destruct (Track.clip_at db tr st) as [ci|]; [|exact Hz].
  destruct (ClipDatabase.get db (clip_id ci)) as [clip|] eqn:Eg; [|exact Hz].
  apply copy_clip_data_Forall; [exact Hz|]. exact (get_Forall P db _ _ Hdb Eg).
Qed.

(** ** Overlap within a track *)






(** C2: the track [{t=0, [1,1,1,1,1]}] then [{t=2, [2]}] rendered at 0 over
    5 samples gives [[1,1,2,1,1]]: after the short later clip the earlier clip
    resumes. *)
Theorem C2_short_later_clip_resumes_earlier :
  Track.render (mk_db [[1;1;1;1;1]; [2]]%Q) (mk_track [(0,0); (2,1)]%nat) 0 5
  = [1;1;2;1;1]%Q.
Proof. vm_compute. reflexivity. Qed.

(** C2 (counterexample): the same render is not [[1,1,2,0,0]]. *)
Lemma C2_counterexample :
  Track.render (mk_db [[1;1;1;1;1]; [2]]%Q) (mk_track [(0,0); (2,1)]%nat) 0 5
  <> [1;1;2;0;0]%Q.
Proof. vm_compute. discriminate. Qed.

(** C3 (counterexample): 128 host frames at 48000 Hz for a 44100 Hz project
    are 117.6 source samples; the playhead of a playing player moves by 117,
    while [round(117.6) = 118]. *)
Lemma C3_counterexample :
  option_map (fun r => Player.time (fst r))
    (Player.write_next_block (fun u : unit => (u, 0%Q))
       {| Player.config_sample_rate := 48000; Player.output_buf := repeat 0%Q 128;
          Player.playing_project := true; Player.time := 0; Player.recording := false;
          Player.record_track := 0; Player.record_start := 0; Player.record_buf := [] |}
       (mk_project (repeat 0%Q 200)) tt 128 1)
  = Some 117 /\
  Qfloor (inject_Z 128 * inject_Z 44100 / inject_Z 48000 + (1 # 2)) = 118%Z.
Proof. split; vm_compute; reflexivity. Qed.

(** C5 (counterexample): the rendered sample 2^-15 is written as 0, while
    [round(2^-15 * 32767) = 1]. *)
Lemma C5_counterexample :
  option_map (map Project.export_sample) (Project.render_all (mk_project [1 # 32768]%Q))
  = Some [0%Z] /\
  Qfloor ((1 # 32768) * inject_Z 32767 + (1 # 2)) = 1%Z.
Proof. split; vm_compute; reflexivity. Qed.

(** C6: an instance whose clip is missing from the database stops the
    rendering of the track: [{t=2, clip 0 = [1]}] with a missing
    [{t=1, clip 1}] renders [0, 3) as [[0,0,0]], while without it the same
    window is [[0,0,1]]. *)
Theorem C6_missing_clip_stops_render :
  Track.render (mk_db [[1]]%Q) (mk_track [(2,0); (1,1)]%nat) 0 3 = [0;0;0]%Q /\
  Track.render (mk_db [[1]]%Q) (mk_track [(2,0)]%nat) 0 3 = [0;0;1]%Q.
Proof. split; vm_compute; reflexivity. Qed.


(** C8 (counterexample): a clip holding 2.0 renders 2.0, outside [-1, 1]. *)
Lemma C8_counterexample :
  Track.render (mk_db [[2]]%Q) (mk_track [(0,0)]%nat) 0 1 = [2]%Q /\ ~ (2 <= 1)%Q.
Proof. split; [vm_compute; reflexivity | unfold Qle; simpl; lia]. Qed.

(** C8: for every track, database, [startTime] and length [n],
    [Track::render] neither mixes nor clamps: it fills exactly [n] samples,
    each [0.0] or a sample held, unchanged, by a clip of the database.  So
    when every clip of the database holds samples in [-1, 1], every rendered
    sample lies in [-1, 1]; otherwise the clips' values pass through. *)
Theorem C8_render_copies_clip_samples (db : ClipDatabase.t) (tr : Track.t)
    (start_time n : nat) :
  length (Track.render db tr start_time n) = n /\
  Forall (fun x => x = 0%Q \/
                   exists id c, ClipDatabase.clips db !! id = Some c /\ In x (data c))
    (Track.render db tr start_time n) /\
  (map_Forall (fun _ c => Forall (fun x => -1 <= x <= 1)%Q (data c))
     (ClipDatabase.clips db) ->
   Forall (fun x => -1 <= x <= 1)%Q (Track.render db tr start_time n)).
Proof.
  split; [apply render_length|]. split.
  - apply render_Forall; [left; reflexivity|].
    intros id c Hc. apply List.Forall_forall. intros x Hx. right. exists id, c. auto.
  - intros Hdb. apply render_Forall; [|exact Hdb].
    split; unfold Qle; simpl; lia.
Qed.

Lemma C8_witness :
  length (Track.render (mk_db [[1;1;1;1]; [-1#2; 1#2]]%Q) (mk_track [(0,0); (2,1)]%nat) 1 6) = 6 /\
  Forall (fun x => -1 <= x <= 1)%Q
    (Track.render (mk_db [[1;1;1;1]; [-1#2; 1#2]]%Q) (mk_track [(0,0); (2,1)]%nat) 1 6).
Proof.
  assert (H : map_Forall (fun _ c => Forall (fun x => -1 <= x <= 1)%Q (data c))
    (ClipDatabase.clips (mk_db [[1;1;1;1]; [-1#2; 1#2]]%Q))).
  { assert (E : ClipDatabase.clips (mk_db [[1;1;1;1]; [-1#2; 1#2]]%Q)
                = <[1 := {| data := [-1#2; 1#2]%Q |}]>
                    (<[0 := {| data := [1;1;1;1]%Q |}]> (∅ : gmap nat Clip)))
      by (vm_compute; reflexivity).
    rewrite E.
    repeat (apply map_Forall_insert_2;
            [cbn [data]; repeat (apply Forall_cons_2; [split; unfold Qle; simpl; lia|]);
             apply Forall_nil_2|]).
    apply map_Forall_empty. }
  destruct (C8_render_copies_clip_samples (mk_db [[1;1;1;1]; [-1#2; 1#2]]%Q)
              (mk_track [(0,0); (2,1)]%nat) 1 6) as [H1 [_ H3]].
  split; [exact H1|exact (H3 H)].
Defined.

(** ** Project loading *)

(** C7: when [project.json] cannot be read or does not deserialize,
    [Project::load_overwrite] returns an error and leaves the project as it
    was. *)
Theorem C7_load_overwrite_failure_keeps_project (self : Project.t)
    (read : string -> string + string)
    (from_str : string -> Project.t + (string * nat * nat)) (path : string)
    (Hfail : (exists io, read (Project.project_file path) = inr io) \/
             (exists s msg line column,
                read (Project.project_file path) = inl s /\
                from_str s = inr (msg, line, column))) :
  exists e, Project.load_overwrite self read from_str path = (self, inr e).
Proof.
  unfold Project.load_overwrite, Project.load.
  destruct Hfail as [[io H] | [s [msg [line [column [H1 H2]]]]]].
  - rewrite H. eauto.
  - rewrite H1, H2. eauto.
Qed.

Lemma C7_witness :
  exists e, Project.load_overwrite Project.new (fun _ => inr "not found"%string)
              (fun _ => inr ("expected value"%string, 1, 1)) "session"%string
            = (Project.new, inr e).
Proof.
  apply C7_load_overwrite_failure_keeps_project.
  left. exists "not found"%string. reflexivity.
Defined.

(** ** Timeline length *)

(** C9: [Timeline::len] does not panic on a timeline with tracks, in
    particular on one made by [Timeline::new] (four tracks); it panics on a
    timeline without tracks. *)
Theorem C9_timeline_len_panics_only_without_tracks (db : ClipDatabase.t)
    (tl : Timeline.t) (Htracks : Timeline.tracks tl <> []) :
  (exists n, Timeline.len db tl = Some n) /\
  (exists n, Timeline.len db Timeline.new = Some n) /\
  Timeline.len db {| Timeline.tracks := [] |} = None.
Proof.
  split; [|split].
  - destruct tl as [tracks]. unfold Timeline.len. simpl in *.
    destruct tracks as [|tr rest]; [congruence|]. simpl. eauto.
  - unfold Timeline.len, Timeline.new. simpl. eauto.
  - reflexivity.
Qed.

Lemma C9_witness :
  Timeline.tracks Timeline.new <> [] /\
  (exists n, Timeline.len ClipDatabase.new Timeline.new = Some n) /\
  (exists n, Timeline.len ClipDatabase.new Timeline.new = Some n) /\
  Timeline.len ClipDatabase.new {| Timeline.tracks := [] |} = None.
Proof.
  assert (H : Timeline.tracks Timeline.new <> []) by (simpl; discriminate).
  split; [exact H|].
  exact (C9_timeline_len_panics_only_without_tracks ClipDatabase.new Timeline.new H).
Defined.

(** ** Recording *)

Lemma ids_below_size_new : ids_below_size ClipDatabase.new.
Proof. apply map_Forall_empty. Qed.

Lemma ids_below_size_fresh (db : ClipDatabase.t) :
  ids_below_size db -> ClipDatabase.clips db !! size (ClipDatabase.clips db) = None.
Proof.
  intros Hwf. destruct (ClipDatabase.clips db !! _) as [c|] eqn:E; [|done].
  pose proof (map_Forall_lookup_1 _ _ _ _ Hwf E) as H. simpl in H. lia.
Qed.

Lemma ids_below_size_add (db : ClipDatabase.t) (clip : Clip) :
  ids_below_size db -> ids_below_size (fst (ClipDatabase.add db clip)).
Proof.
  intros Hwf. pose proof (ids_below_size_fresh db Hwf) as Hfresh.
  unfold ids_below_size, ClipDatabase.add in *. simpl.
  rewrite map_size_insert_None by exact Hfresh.
  apply map_Forall_insert_2; [lia|].
  eapply map_Forall_impl; [exact Hwf|]. simpl. intros; lia.
Qed.

(** C4: stopping a recording with [n] recorded samples stores them as one new
    clip of length [n] under a fresh id, appends one instance of it at
    [record_start] to the armed track, and empties the record buffer; arming
    sets [record_start] to the playhead; asking for the current state changes
    nothing. *)
Theorem C4_set_recording_records_one_clip (p : Player.t) (pr : Project.t) (k : nat)
    (Hrecording : Player.recording p = true)
    (Hbuf : Player.record_buf p <> [])
    (Htrack : Player.record_track p < length (Project.tracks pr))
    (Hwf : ids_below_size (Project.database pr)) :
  (exists p' pr' tr id,
     Player.set_recording p pr false k = Some (p', pr') /\
     Player.recording p' = false /\
     Player.record_buf p' = [] /\
     Project.tracks pr !! Player.record_track p = Some tr /\
     Project.tracks pr' =
       <[Player.record_track p :=
           {| Track.clips := Track.clips tr
                ++ [{| time := Player.record_start p; clip_id := id |}] |}]>
         (Project.tracks pr) /\
     ClipDatabase.clips (Project.database pr) !! id = None /\
     ClipDatabase.clips (Project.database pr') =
       <[id := {| data := Player.record_buf p |}]> (ClipDatabase.clips (Project.database pr)) /\
     size (ClipDatabase.clips (Project.database pr')) =
       S (size (ClipDatabase.clips (Project.database pr))) /\
     clip_len {| data := Player.record_buf p |} = length (Player.record_buf p)) /\
  (forall r, Player.set_recording p pr (Player.recording p) r = Some (p, pr)) /\
  (forall q : Player.t, Player.recording q = false ->
     exists q', Player.set_recording q pr true k = Some (q', pr) /\
       Player.recording q' = true /\ Player.record_start q' = Player.time q /\
       Player.record_track q' = k /\ Player.record_buf q' = []).
Proof.
  split; [|split].
  - destruct (Project.tracks pr !! Player.record_track p) as [tr|] eqn:Etr.
    2:{ apply lookup_ge_None in Etr. lia. }
    pose proof (ids_below_size_fresh _ Hwf) as Hfresh.
    unfold Player.set_recording. rewrite Hrecording. simpl.
    rewrite bool_decide_false by exact Hbuf. simpl.
    unfold Player.write_recorded_clip. simpl. rewrite Etr.
    unfold Track.add_clip, ClipDatabase.add. simpl.
    eexists _, _, tr, (size (ClipDatabase.clips (Project.database pr))).
    split; [reflexivity|].
    repeat split; auto.
    simpl. apply map_size_insert_None. exact Hfresh.
  - intros r. unfold Player.set_recording. rewrite Bool.eqb_reflx. reflexivity.
  - intros q Hq. unfold Player.set_recording. rewrite Hq. simpl.
    eexists. repeat split.
Qed.

Lemma C4_witness :
  exists p' pr' tr id,
    Player.set_recording
      {| Player.config_sample_rate := 44100; Player.output_buf := [];
         Player.playing_project := true; Player.time := 7; Player.recording := true;
         Player.record_track := 1; Player.record_start := 3;
         Player.record_buf := [1 # 2; 1 # 4]%Q |}
      Project.new false 0 = Some (p', pr') /\
    Player.recording p' = false /\
    Player.record_buf p' = [] /\
    Project.tracks Project.new !! 1 = Some tr /\
    Project.tracks pr' =
      <[1 := {| Track.clips := Track.clips tr ++ [{| time := 3; clip_id := id |}] |}]>
        (Project.tracks Project.new) /\
    ClipDatabase.clips (Project.database Project.new) !! id = None /\
    ClipDatabase.clips (Project.database pr') =
      <[id := {| data := [1 # 2; 1 # 4]%Q |}]> (ClipDatabase.clips (Project.database Project.new)) /\
    size (ClipDatabase.clips (Project.database pr')) =
      S (size (ClipDatabase.clips (Project.database Project.new))) /\
    clip_len {| data := [1 # 2; 1 # 4]%Q |} = length [1 # 2; 1 # 4]%Q.
Proof.
  refine (proj1 (C4_set_recording_records_one_clip _ Project.new 0 _ _ _ _)).
  - reflexivity.
  - discriminate.
  - simpl. lia.
  - exact ids_below_size_new.
Defined.

(** ** The sine generator *)
Module SineProps.
Import Sine.
Local Open Scope R_scope.

Lemma sign_of_pos (r : R) : 0 < r -> sign_of r = Some false.
Proof.
  intros H. unfold sign_of.
  destruct (total_order_T r 0) as [[Hl|He]|Hg]; [lra|lra|reflexivity].
Qed.

Lemma sign_of_zero : sign_of 0 = None.
Proof.
  unfold sign_of.
  destruct (total_order_T 0 0) as [[Hl|He]|Hg]; [lra|reflexivity|lra].
Qed.

Lemma midi_note_to_hz_pos (n : nat) :
  exists hz, midi_note_to_hz n = Fin hz /\ 0 < hz.
Proof.
  eexists. split; [reflexivity|].
  unfold Rpower. pose proof (exp_pos ((INR n - 69) / 12 * ln 2)). lra.
Qed.

Lemma two_pi_pos : 0 < 2 * PI.
Proof. pose proof PI_RGT_0. lra. Qed.

(** With a positive sample rate a finite phase stays finite and the sample
    is the sine of the new phase. *)
Lemma next_finite (g : t) (r : R) :
  (0 < sample_rate g)%nat -> phase g = Fin r -> on g = true ->
  exists r', phase (fst (next g)) = Fin r' /\ snd (next g) = Fin (sin r').
Proof.
  intros Hsr Hph Hon.
  destruct (midi_note_to_hz_pos (note g)) as [hz [Ehz _]].
  unfold next. rewrite Hon, Ehz, Hph. cbn [negb fst snd].
  unfold fdiv. rewrite (sign_of_pos _ (lt_0_INR _ Hsr)).
  unfold two_pi. cbn [fmul fadd fst snd phase].
  unfold flt, fgt, fsub, fneg.
  repeat match goal with
         | |- context [Rlt_dec ?a ?b] => destruct (Rlt_dec a b)
         end; cbn [fadd fsin]; eauto;
  destruct (Rlt_dec _ _); eauto.
Qed.

Lemma reachable_finite (sr : nat) (g : t) :
  (0 < sr)%nat -> reachable sr g ->
  sample_rate g = sr /\ exists r, phase g = Fin r.
Proof.
  intros Hsr Hr. induction Hr as [| g msg Hr IH | g Hr IH].
  - simpl. eauto.
  - destruct IH as [Esr [r Hph]].
    destruct msg; simpl; try (destruct (Nat.eqb _ _)); simpl; eauto.
  - destruct IH as [Esr [r Hph]].
    destruct (on g) eqn:Hon.
    + destruct (next_finite g r) as [r' [H1 _]]; [lia|exact Hph|exact Hon|].
      split; [unfold next; rewrite Hon; exact Esr | eauto].
    + unfold next. rewrite Hon. simpl. eauto.
Qed.

End SineProps.

(** C10 (counterexample): [SineGenerator::new(0)] after a NoteOn returns NaN
    from [next]: the frequency is 440.0 / 0.0 = +inf, the phase becomes +inf
    and [sin(+inf)] is NaN, which is not in [-1, 1]. *)
Lemma C10_counterexample :
  snd (Sine.next (Sine.handle (Sine.new 0) (Sine.NoteOn 69 100))) = Sine.NaN /\
  ~ Sine.in_unit Sine.NaN.
Proof.
  split; [|simpl; tauto].
  destruct (SineProps.midi_note_to_hz_pos 69) as [hz [Ehz Hpos]].
  unfold Sine.next.
  cbn [Sine.handle Sine.new Sine.on Sine.note Sine.phase Sine.sample_rate negb].
  rewrite Ehz. cbn [INR].
  unfold Sine.fdiv. rewrite SineProps.sign_of_zero, (SineProps.sign_of_pos _ Hpos).
  unfold Sine.two_pi, Sine.fmul.
  rewrite (SineProps.sign_of_pos _ SineProps.two_pi_pos). simpl.
  reflexivity.
Qed.

(** C10: for a generator made by [SineGenerator::new(sample_rate)] with a
    positive sample rate and driven by any messages and [next] calls, [next]
    returns a value in [-1, 1]; with the gate off (initially, or after a
    NoteOff of the remembered key) it returns 0.0 and keeps the state, phase
    included. *)
Theorem C10_sine_next_in_unit (sr : nat) (g : Sine.t)
    (Hsr : (0 < sr)%nat) (Hreach : Sine.reachable sr g) :
  Sine.in_unit (snd (Sine.next g)) /\
  (Sine.on g = false -> Sine.next g = (g, Sine.Fin 0)) /\
  Sine.on (Sine.new sr) = false /\
  (forall key vel, Sine.note g = key -> Sine.on (Sine.handle g (Sine.NoteOff key vel)) = false).
Proof.
  destruct (SineProps.reachable_finite sr g Hsr Hreach) as [Esr [r Hph]].
  split; [|split; [|split]].
  - destruct (Sine.on g) eqn:Hon.
    + destruct (SineProps.next_finite g r) as [r' [_ Hs]]; [lia|exact Hph|exact Hon|].
      rewrite Hs. simpl. apply SIN_bound.
    + unfold Sine.next. rewrite Hon. simpl. lra.
  - intros Hoff. unfold Sine.next. rewrite Hoff. reflexivity.
  - reflexivity.
  - intros key vel Hkey. simpl. rewrite Hkey, Nat.eqb_refl. reflexivity.
Qed.

Lemma C10_witness :
  Sine.in_unit (snd (Sine.next (Sine.handle (Sine.new 4000) (Sine.NoteOn 60 90)))) /\
  (Sine.on (Sine.handle (Sine.new 4000) (Sine.NoteOn 60 90)) = false ->
     Sine.next (Sine.handle (Sine.new 4000) (Sine.NoteOn 60 90))
     = (Sine.handle (Sine.new 4000) (Sine.NoteOn 60 90), Sine.Fin 0)) /\
  Sine.on (Sine.new 4000) = false /\
  (forall key vel, Sine.note (Sine.handle (Sine.new 4000) (Sine.NoteOn 60 90)) = key ->
     Sine.on (Sine.handle (Sine.handle (Sine.new 4000) (Sine.NoteOn 60 90))
                (Sine.NoteOff key vel)) = false).
Proof.
  apply C10_sine_next_in_unit.
  - lia.
  - apply Sine.reach_handle, Sine.reach_new.
Defined.

(** ** The player's playhead *)


(** * Further properties of the engine *)

(** ** clip_database.rs *)

(** X1: on a database whose ids are below its size (every database built by
    [new] and [add]), [add] returns an id that was free, under which [get]
    then finds the added clip; every other id keeps its clip, and the
    invariant holds again. *)
Theorem clip_database_add_get (db : ClipDatabase.t) (clip : Clip)
    (Hinv : ids_below_size db) :
  ClipDatabase.get db (snd (ClipDatabase.add db clip)) = None /\
  ClipDatabase.get (fst (ClipDatabase.add db clip)) (snd (ClipDatabase.add db clip)) = Some clip /\
  (forall id, id <> snd (ClipDatabase.add db clip) ->
     ClipDatabase.get (fst (ClipDatabase.add db clip)) id = ClipDatabase.get db id) /\
  ids_below_size (fst (ClipDatabase.add db clip)).
Proof.
  split; [exact (ids_below_size_fresh db Hinv)|].
  split; [unfold ClipDatabase.get, ClipDatabase.add; simpl; apply lookup_insert_eq|].
  split; [|exact (ids_below_size_add db clip Hinv)].
  intros id Hid. unfold ClipDatabase.get, ClipDatabase.add in *. simpl in *.
  apply lookup_insert_ne. congruence.
Qed.

Lemma clip_database_add_get_witness :
  ids_below_size (mk_db [[1]; [2]]%Q) /\
  ClipDatabase.get (mk_db [[1]; [2]]%Q) (snd (ClipDatabase.add (mk_db [[1]; [2]]%Q) {| data := [3]%Q |})) = None /\
  ClipDatabase.get (fst (ClipDatabase.add (mk_db [[1]; [2]]%Q) {| data := [3]%Q |}))
    (snd (ClipDatabase.add (mk_db [[1]; [2]]%Q) {| data := [3]%Q |})) = Some {| data := [3]%Q |} /\
  (forall id, id <> snd (ClipDatabase.add (mk_db [[1]; [2]]%Q) {| data := [3]%Q |}) ->
     ClipDatabase.get (fst (ClipDatabase.add (mk_db [[1]; [2]]%Q) {| data := [3]%Q |})) id
     = ClipDatabase.get (mk_db [[1]; [2]]%Q) id) /\
  ids_below_size (fst (ClipDatabase.add (mk_db [[1]; [2]]%Q) {| data := [3]%Q |})).
Proof.
  assert (H : ids_below_size (mk_db [[1]; [2]]%Q)).
  { unfold mk_db. cbn [fold_left].
    apply ids_below_size_add, ids_below_size_add, ids_below_size_new. }
  split; [exact H|].
  exact (clip_database_add_get (mk_db [[1]; [2]]%Q) {| data := [3]%Q |} H).
Defined.

(** ** track.rs: finding clips *)

Lemma fold_min_by_le {A} (key : A -> nat) (acc : A) (l : list A) :
  key (fold_min_by (fun a b => key a <=? key b) acc l) <= key acc /\
  forall x, In x l -> key (fold_min_by (fun a b => key a <=? key b) acc l) <= key x.
Proof.
  revert acc. induction l as [|y r IH]; intros acc; simpl; [split; [lia|tauto]|].
  destruct (IH (if key acc <=? key y then acc else y)) as [H1 H2].
  destruct (Nat.leb_spec (key acc) (key y)); split.
  - exact H1.
  - intros x [<-|Hx]; [lia|auto].
  - lia.
  - intros x [<-|Hx]; [exact H1|auto].
Qed.

Lemma next_clip_props (tr : Track.t) (t0 : Time) :
  match Track.next_clip tr t0 with
  | Some c =>
      In c (Track.clips tr) /\ t0 < ci_start c /\
      forall c', In c' (Track.clips tr) -> t0 < ci_start c' -> ci_start c <= ci_start c'
  | None => forall c', In c' (Track.clips tr) -> ci_start c' <= t0
  end.
Proof.
  destruct (Track.next_clip tr t0) as [c|] eqn:E.
  - pose proof (min_by_key_in _ _ _ _ E) as Hin.
    apply filter_In in Hin as [Hin Hlt]. apply Nat.ltb_lt in Hlt.
    split; [exact Hin|]. split; [exact Hlt|].
    intros c' Hc' Hlt'.
    unfold Track.next_clip, min_by_key in E.
    destruct (List.filter _ _) as [|y r] eqn:Ef; [discriminate|].
    injection E as <-.
    assert (Hf : In c' (y :: r)).
    { rewrite <- Ef. apply filter_In. split; [exact Hc'|]. apply Nat.ltb_lt; exact Hlt'. }
    destruct (fold_min_by_le ci_start y r) as [H1 H2].
    destruct Hf as [<-|Hf]; [exact H1|exact (H2 c' Hf)].
  - intros c' Hc'. unfold Track.next_clip, min_by_key in E.
    destruct (List.filter _ _) as [|y r] eqn:Ef; [|discriminate].
    destruct (Nat.ltb_spec t0 (ci_start c')) as [Hl|Hl]; [|exact Hl].
    assert (Hf : In c' (List.filter (fun c => t0 <? ci_start c) (Track.clips tr))).
    { apply filter_In. split; [exact Hc'|]. apply Nat.ltb_lt; exact Hl. }
    rewrite Ef in Hf. destruct Hf.
Qed.

(** X2: [Track::next_clip(t)] returns an instance of the track starting after
    [t] whose start is the smallest of those; it returns [None] exactly when
    no instance starts after [t]. *)
Theorem next_clip_spec (tr : Track.t) (t0 : Time) :
  match Track.next_clip tr t0 with
  | Some c =>
      In c (Track.clips tr) /\ t0 < ci_start c /\
      forall c', In c' (Track.clips tr) -> t0 < ci_start c' -> ci_start c <= ci_start c'
  | None => forall c', In c' (Track.clips tr) -> ci_start c' <= t0
  end.
Proof. exact (next_clip_props tr t0). Qed.

Lemma rfind_some {A} (p : A -> bool) (l : list A) x :
  rfind p l = Some x -> In x l /\ p x = true.
Proof.
  induction l as [|y r IH]; simpl; [discriminate|].
  destruct (rfind p r) as [z|] eqn:E.
  - intros H; injection H as <-. destruct (IH eq_refl). auto.
  - destruct (p y) eqn:Ep; [|discriminate]. intros H; injection H as <-. auto.
Qed.

Lemma rfind_none {A} (p : A -> bool) (l : list A) :
  rfind p l = None -> forall x, In x l -> p x = false.
Proof.
  induction l as [|y r IH]; simpl; [tauto|].
  destruct (rfind p r) as [z|] eqn:E; [discriminate|].
  destruct (p y) eqn:Ep; [discriminate|].
  intros _ x [<-|Hx]; [exact Ep|exact (IH eq_refl x Hx)].
Qed.

Lemma rfind_app_last {A} (p : A -> bool) (l : list A) x :
  p x = true -> rfind p (l ++ [x]) = Some x.
Proof.
  intros Hx. induction l as [|y r IH]; simpl.
  - rewrite Hx. reflexivity.
  - rewrite IH. reflexivity.
Qed.

(** X3: [Track::clip_at(t)] returns an instance of the track that plays at
    [t] ([start <= t < end], its clip present), and [None] only when no
    instance does; an instance just placed by [instantiate_clip] that plays
    at [t] takes precedence over every earlier one. *)
Theorem clip_at_spec (db : ClipDatabase.t) (tr : Track.t) (t0 : Time) :
  match Track.clip_at db tr t0 with
  | Some c => In c (Track.clips tr) /\ Track.covers db t0 c = true
  | None => forall c, In c (Track.clips tr) -> Track.covers db t0 c = false
  end /\
  forall clip_id time,
    Track.covers db t0 {| time := time; clip_id := clip_id |} = true ->
    Track.clip_at db (Track.instantiate_clip tr clip_id time) t0
    = Some {| time := time; clip_id := clip_id |}.
Proof.
  split.
  - unfold Track.clip_at. destruct (rfind _ _) as [c|] eqn:E.
    + exact (rfind_some _ _ _ E).
    + exact (rfind_none _ _ E).
  - intros clip_id time H. unfold Track.clip_at, Track.instantiate_clip. simpl.
    apply rfind_app_last. exact H.
Qed.

(** ** track.rs: length and render_all *)

Lemma option_leb_trans a b c :
  option_leb a b = true -> option_leb b c = true -> option_leb a c = true.
Proof.
  destruct a as [x|], b as [y|], c as [z|]; simpl; try discriminate; auto.
  rewrite !Nat.leb_le. lia.
Qed.

Lemma option_leb_total a b : option_leb a b = false -> option_leb b a = true.
Proof.
  destruct a as [x|], b as [y|]; simpl; try discriminate; auto.
  rewrite Nat.leb_gt, Nat.leb_le. lia.
Qed.

Lemma fold_max_by_ge {A} (key : A -> option nat) (acc : A) (l : list A) :
  let m := fold_max_by (fun a b => option_leb (key a) (key b)) acc l in
  (m = acc \/ In m l) /\ option_leb (key acc) (key m) = true /\
  forall x, In x l -> option_leb (key x) (key m) = true.
Proof.
  revert acc. induction l as [|y r IH]; intros acc; simpl.
  - split; [left; reflexivity|]. split; [destruct (key acc); simpl; auto using Nat.leb_refl|tauto].
  - destruct (option_leb (key acc) (key y)) eqn:Ey;
      destruct (IH (if option_leb (key acc) (key y) then y else acc)) as [Hm [H1 H2]];
      rewrite Ey in Hm, H1, H2.
    + split; [destruct Hm as [->|Hm]; right; [left|right]; auto|].
      split; [exact (option_leb_trans _ _ _ Ey H1)|].
      intros x [<-|Hx]; [exact H1|auto].
    + split; [destruct Hm as [->|Hm]; [left|right; right]; auto|].
      split; [exact H1|].
      intros x [<-|Hx]; [|auto].
      exact (option_leb_trans _ _ _ (option_leb_total _ _ Ey) H1).
Qed.

(** X4: [Track::len] is the latest end of the track's instances whose clip
    is in the database: no such instance ends after it, and it is either 0
    or the end of one of them. *)
Theorem track_len_spec (db : ClipDatabase.t) (tr : Track.t) :
  (forall c e, In c (Track.clips tr) -> ci_end db c = Some e -> e <= Track.len db tr) /\
  (Track.len db tr = 0 \/
   exists c, In c (Track.clips tr) /\ ci_end db c = Some (Track.len db tr)).
Proof.
  unfold Track.len, Track.last_clip, max_by_key.
  destruct (Track.clips tr) as [|y r] eqn:Ec.
  - split; [intros c e []|left; reflexivity].
  - destruct (fold_max_by_ge (ci_end db) y r) as [Hm [H1 H2]].
    set (m := fold_max_by _ y r) in *.
    split.
    + intros c e Hc He.
      assert (Hle : option_leb (ci_end db c) (ci_end db m) = true)
        by (destruct Hc as [<-|Hc]; [exact H1|exact (H2 c Hc)]).
      rewrite He in Hle. destruct (ci_end db m) as [e'|]; [|discriminate].
      simpl in Hle. apply Nat.leb_le in Hle. exact Hle.
    + destruct (ci_end db m) as [e'|] eqn:Em; [right|left; reflexivity].
      exists m. split; [destruct Hm as [->|Hm]; [left|right]; auto|exact Em].
Qed.

(** ** track.rs: where render writes *)


Section Silence.
Variables (db : ClipDatabase.t) (tr : Track.t) (st : Time).



End Silence.



(** ** lib.rs and timeline.rs: mixing and rendering the timeline *)

Lemma clamp_unit_in_unit (x : Q) : (-1 <= Sample.clamp_unit x <= 1)%Q.
Proof.
  unfold Sample.clamp_unit. split.
  - apply Q.min_glb; [apply Q.le_max_r|unfold Qle; simpl; lia].
  - apply Q.le_min_r.
Qed.

Lemma mix_length_in_unit (sources : list (list Q)) (n : nat) :
  length (mix sources n) = n /\ Forall (fun x => -1 <= x <= 1)%Q (mix sources n).
Proof.
  unfold mix. split; [rewrite length_map; apply length_seq|].
  apply List.Forall_forall. intros x Hx. apply in_map_iff in Hx as [i [<- _]].
  unfold mix_sample. apply clamp_unit_in_unit.
Qed.

(** X7: [mix] fills all of [buf], whatever the sources' lengths, and clamps
    every sample into [-1, 1]. *)
Theorem mix_fills_and_clamps (sources : list (list Q)) (n : nat) :
  length (mix sources n) = n /\ Forall (fun x => -1 <= x <= 1)%Q (mix sources n).
Proof. exact (mix_length_in_unit sources n). Qed.

Lemma map_snd_enumerate {A B} (f : A -> B) (l : list A) (s : nat) :
  map (fun '((_, x) : nat * A) => f x) (combine (seq s (length l)) l) = map f l.
Proof.
  revert s. induction l as [|x r IH]; intros s; simpl; [reflexivity|].
  rewrite IH. reflexivity.
Qed.

Lemma filter_all_false {A} (p : A -> bool) (l : list A) :
  (forall x, In x l -> p x = false) -> List.filter p l = [].
Proof.
  induction l as [|x r IH]; intros H; simpl; [reflexivity|].
  rewrite (H x (or_introl eq_refl)). apply IH. intros y Hy. apply H. right. exact Hy.
Qed.

Lemma timeline_len_none (db : ClipDatabase.t) (tl : Timeline.t) :
  Timeline.len db tl = None <-> Timeline.tracks tl = [].
Proof.
  unfold Timeline.len. destruct (Timeline.tracks tl); simpl; split; congruence.
Qed.

Lemma timeline_render_spec (db : ClipDatabase.t) (tl : Timeline.t) (st n : nat) :
  Timeline.tracks tl <> [] ->
  exists buf, Timeline.render db tl st n = Some buf /\
    length buf = n /\ Forall (fun x => -1 <= x <= 1)%Q buf.
Proof.
  intros Hne. unfold Timeline.render.
  destruct (Timeline.len db tl) as [l|] eqn:El; [|apply timeline_len_none in El; contradiction].
  destruct (l <=? st).
  - eexists; split; [reflexivity|]. split; [apply repeat_length|].
    apply List.Forall_forall. intros x Hx. apply repeat_spec in Hx. subst.
    split; unfold Qle; simpl; lia.
  - eexists; split; [reflexivity|]. apply mix_length_in_unit.
Qed.

(** X8: [Timeline::render_exclude] (and [Timeline::render], which is
    [render_exclude] with nothing excluded) panics exactly when the timeline
    has no tracks; otherwise it fills the [n] samples of [buf], each in
    [-1, 1], and excluding every track gives silence. *)
Theorem timeline_render_exclude_spec (db : ClipDatabase.t) (tl : Timeline.t)
    (st n : nat) (exclude : list nat) :
  Timeline.render db tl st n = Timeline.render_exclude db tl st n [] /\
  (Timeline.render_exclude db tl st n exclude = None <-> Timeline.tracks tl = []) /\
  (forall buf, Timeline.render_exclude db tl st n exclude = Some buf ->
     length buf = n /\ Forall (fun x => -1 <= x <= 1)%Q buf) /\
  (Timeline.tracks tl <> [] ->
   (forall i, i < length (Timeline.tracks tl) -> In i exclude) ->
   Timeline.render_exclude db tl st n exclude = Some (repeat 0%Q n)).
Proof.
  split.
  { unfold Timeline.render, Timeline.render_exclude.
    destruct (Timeline.len db tl); [|reflexivity].
    destruct (_ <=? st); [reflexivity|]. do 2 f_equal.
    unfold Timeline.enumerate.
    rewrite (List.filter_ext _ (fun _ => true)) by (intros [i tr]; reflexivity).
    rewrite filter_true. symmetry. apply map_snd_enumerate. }
  split.
  { rewrite <- (timeline_len_none db tl). unfold Timeline.render_exclude.
    destruct (Timeline.len db tl); [destruct (_ <=? st)|]; split; congruence. }
  split.
  { intros buf. unfold Timeline.render_exclude.
    destruct (Timeline.len db tl); [|discriminate].
    destruct (_ <=? st); intros H; injection H as <-.
    - split; [apply repeat_length|].
      apply List.Forall_forall. intros x Hx. apply repeat_spec in Hx. subst.
      split; unfold Qle; simpl; lia.
    - apply mix_length_in_unit. }
  intros Hne Hall. unfold Timeline.render_exclude.
  destruct (Timeline.len db tl) as [l|] eqn:El; [|apply timeline_len_none in El; contradiction].
  destruct (_ <=? st); [reflexivity|].
  rewrite filter_all_false.
  - simpl. unfold mix. f_equal.
    rewrite (map_ext _ (fun _ => 0%Q)) by (intros i; reflexivity).
    rewrite map_const, length_seq. reflexivity.
  - intros [i tr] Hin. unfold Timeline.enumerate in Hin.
    apply in_combine_l, in_seq in Hin.
    assert (Hi : In i exclude) by (apply Hall; lia).
    destruct (existsb (Nat.eqb i) exclude) eqn:Ee; [reflexivity|].
    exfalso. assert (existsb (Nat.eqb i) exclude = true); [|congruence].
    apply existsb_exists. exists i. split; [exact Hi|apply Nat.eqb_refl].
Qed.

Lemma timeline_render_all_spec (db : ClipDatabase.t) (tl : Timeline.t) :
  match Timeline.tracks tl with
  | [] => Timeline.render_all db tl = Some []
  | _ => exists l buf, Timeline.len db tl = Some l /\ Timeline.render_all db tl = Some buf /\
           length buf = l /\ Forall (fun x => -1 <= x <= 1)%Q buf
  end.
Proof.
  unfold Timeline.render_all.
  destruct (Timeline.tracks tl) as [|tr r] eqn:Et; [reflexivity|].
  destruct (Timeline.len db tl) as [l|] eqn:El;
    [|apply timeline_len_none in El; congruence].
  destruct (timeline_render_spec db tl 0 l) as [buf [H1 H2]]; [congruence|].
  exists l, buf. split; [reflexivity|]. split; [exact H1|exact H2].
Qed.


(** [Project::render_all] is [Timeline::render_all] of the project's
    timeline (the two bodies are the same code). *)
Lemma project_render_all_timeline (p : Project.t) :
  Project.render_all p = Timeline.render_all (Project.database p) (Project.timeline p).
Proof. reflexivity. Qed.

Lemma write_samples_ok {W : Type} (write_sample : W -> Z -> Project.HoundError + W)
    (w : W) (xs : list Z) (w' : W) :
  Project.write_samples write_sample w xs = Some (inr w') <->
  Project.writes_ok write_sample w xs w'.
Proof.
  revert w. induction xs as [|x xs IH]; intros w; simpl.
  - split; [intros H; injection H as ->; reflexivity|intros ->; reflexivity].
  - split.
    + destruct (write_sample w x) as [[e| | | | | ]|w1] eqn:E; try discriminate.
      intros H. exists w1. split; [reflexivity|]. apply IH. exact H.
    + intros [w1 [E H]]. rewrite E. apply IH. exact H.
Qed.

(** C5: [Project::export] renders [render_all], whose [mix] has clamped
    every sample to [-1, 1], and succeeds exactly when the file is created,
    [write_sample] accepts, in order, the value [(s * i16::MAX as f32) as i16]
    of each rendered sample [s], and [finalize] succeeds.  That value
    truncates the f32 product toward zero instead of rounding it: [1.0] is
    written as [32767], [-1.0] as [-32767], [0.0] as [0], [0.5] as [16383],
    [-0.5] as [-16383], [0.75] as [24575] and [2^-15] and [-2^-15] as [0]. *)
Theorem C5_export_truncates_clamped_samples {W : Type}
    (create : string -> Project.HoundError + W)
    (write_sample : W -> Z -> Project.HoundError + W)
    (finalize : W -> Project.HoundError + unit)
    (p : Project.t) (path : string) (samples : list Q)
    (Hr : Project.render_all p = Some samples) :
  Forall (fun s => -1 <= s <= 1)%Q samples /\
  (Project.export create write_sample finalize p path = Some (inr tt) <->
   exists w0 w1, create path = inr w0 /\
     Project.writes_ok write_sample w0 (map Project.export_sample samples) w1 /\
     finalize w1 = inr tt) /\
  map Project.export_sample [1; -1; 0; 1#2; -1#2; 3#4; 1#32768; -1#32768]%Q
  = [32767; -32767; 0; 16383; -16383; 24575; 0; 0]%Z.
Proof.
  split.
  { pose proof (timeline_render_all_spec (Project.database p) (Project.timeline p)) as H.
    rewrite <- project_render_all_timeline, Hr in H.
    destruct (Timeline.tracks (Project.timeline p)).
    - injection H as E. subst samples. constructor.
    - destruct H as [len [buf [_ [H [_ HF]]]]]. injection H as E. subst buf. exact HF. }
  split; [|vm_compute; reflexivity].
  unfold Project.export. rewrite Hr.
  destruct (create path) as [e|w0].
  { split; [discriminate|]. intros [w0 [w1 [E _]]]. discriminate. }
  split.
  - destruct (Project.write_samples write_sample w0 (map Project.export_sample samples))
      as [[e|w1]|] eqn:Ew; try discriminate.
    destruct (finalize w1) as [[e'| | | | | ]|[]] eqn:Ef; try discriminate.
    intros _. exists w0, w1. split; [reflexivity|]. split; [|exact Ef].
    apply write_samples_ok. exact Ew.
  - intros [w0' [w1 [E [Hw Hf]]]]. injection E as <-.
    apply write_samples_ok in Hw. rewrite Hw, Hf. reflexivity.
Qed.

(** An in-memory WAV file: [create] starts an empty list, [write_sample]
    appends, [finalize] succeeds. *)
Lemma C5_witness :
  exists samples,
    Project.render_all (mk_project [1; -1; 1#2; 1#32768]%Q) = Some samples /\
    Forall (fun s => -1 <= s <= 1)%Q samples /\
    map Project.export_sample samples = [32767; -32767; 16383; 0]%Z /\
    exists w0 w1, (fun _ : string => @inr Project.HoundError (list Z) []) "out.wav" = inr w0 /\
      Project.writes_ok (fun w x => inr (w ++ [x])) w0 (map Project.export_sample samples) w1 /\
      (fun _ : list Z => @inr Project.HoundError unit tt) w1 = inr tt.
Proof.
  destruct (Project.render_all (mk_project [1; -1; 1#2; 1#32768]%Q)) as [samples|] eqn:Hr;
    [|vm_compute in Hr; discriminate].
  destruct (C5_export_truncates_clamped_samples
              (fun _ : string => @inr Project.HoundError (list Z) [])
              (fun w x => inr (w ++ [x])) (fun _ => inr tt)
              (mk_project [1; -1; 1#2; 1#32768]%Q) "out.wav" samples Hr) as [HF [Hiff _]].
  exists samples. split; [reflexivity|]. split; [exact HF|]. split.
  - vm_compute in Hr. injection Hr as E. subst samples. vm_compute. reflexivity.
  - apply Hiff. vm_compute. reflexivity.
Defined.

(** ** Listing the clips *)

Lemma iter_clips_from_in (l : list Track.t) s i c :
  In (i, c) (flat_map (fun '(j, tr) => map (fun c => (j, c)) (Track.iter_clips tr))
               (combine (seq s (length l)) l)) <->
  s <= i /\ exists tr, l !! (i - s) = Some tr /\ In c (Track.clips tr).
Proof.
  revert s. induction l as [|x r IH]; intros s; simpl.
  - split; [tauto|]. intros [_ [tr [H _]]]. destruct (i - s); discriminate.
  - rewrite in_app_iff, IH, in_map_iff. unfold Track.iter_clips. split.
    + intros [[c' [He Hc]]|[Hs [tr [Htr Hc]]]].
      * injection He as <- <-. split; [lia|]. exists x. rewrite Nat.sub_diag. auto.
      * split; [lia|]. exists tr. replace (i - s) with (S (i - S s)) by lia. auto.
    + intros [Hs [tr [Htr Hc]]].
      destruct (Nat.eq_dec i s) as [->|Hne].
      * rewrite Nat.sub_diag in Htr. simpl in Htr. injection Htr as ->.
        left. exists c. auto.
      * right. split; [lia|]. exists tr.
        replace (i - s) with (S (i - S s)) in Htr by lia. auto.
Qed.

Lemma StronglySorted_app {A} (R : A -> A -> Prop) (l1 l2 : list A) :
  StronglySorted R l1 -> StronglySorted R l2 ->
  (forall x y, In x l1 -> In y l2 -> R x y) -> StronglySorted R (l1 ++ l2).
Proof.
  induction l1 as [|x r IH]; intros H1 H2 H; simpl; [exact H2|].
  inversion H1 as [|? ? Hr Hx]; subst.
  constructor.
  - apply IH; [exact Hr|exact H2|]. intros a b Ha Hb. apply H; [right|]; assumption.
  - apply Forall_app. split; [exact Hx|].
    apply List.Forall_forall. intros y Hy. apply H; [left; reflexivity|exact Hy].
Qed.

Lemma iter_clips_from_sorted (l : list Track.t) s :
  StronglySorted le (map fst (flat_map (fun '(j, tr) => map (fun c => (j, c)) (Track.iter_clips tr))
                               (combine (seq s (length l)) l))) /\
  Forall (fun i => s <= i) (map fst (flat_map (fun '(j, tr) => map (fun c => (j, c)) (Track.iter_clips tr))
                               (combine (seq s (length l)) l))).
Proof.
  revert s. induction l as [|x r IH]; intros s; simpl; [split; constructor|].
  destruct (IH (S s)) as [Hs Hf].
  rewrite map_app, map_map. simpl. rewrite map_const.
  split.
  - apply StronglySorted_app; [|exact Hs|].
    + clear. induction (length (Track.iter_clips x)); simpl; constructor; [exact IHn|].
      apply List.Forall_forall. intros y Hy. apply repeat_spec in Hy. lia.
    + intros a b Ha Hb. apply repeat_spec in Ha. subst.
      rewrite List.Forall_forall in Hf. specialize (Hf b Hb). lia.
  - apply Forall_app. split.
    + apply List.Forall_forall. intros y Hy. apply repeat_spec in Hy. lia.
    + eapply Forall_impl; [exact Hf|]. simpl. intros; lia.
Qed.

(** X11: [Timeline::iter_clips] yields each instance of each track exactly
    where it is, paired with its track's index, and the indices never
    decrease: the instances come track by track (each track's in insertion
    order), not in order of start time.  [Project::iter_clips] yields the
    same listing as [ClipInfo { track, start }]. *)
Theorem timeline_iter_clips_spec (tl : Timeline.t) :
  (forall i c, In (i, c) (Timeline.iter_clips tl) <->
     exists tr, Timeline.tracks tl !! i = Some tr /\ In c (Track.clips tr)) /\
  StronglySorted le (map fst (Timeline.iter_clips tl)) /\
  (forall p : Project.t, Project.timeline p = tl ->
     Project.iter_clips p =
     map (fun '(i, c) => {| Project.track := i; Project.start := ci_start c |})
       (Timeline.iter_clips tl)).
Proof.
  split; [|split].
  - intros i c. unfold Timeline.iter_clips, Timeline.enumerate.
    rewrite iter_clips_from_in, Nat.sub_0_r. split; [intros [_ H]; exact H|].
    intros H. split; [lia|exact H].
  - apply iter_clips_from_sorted.
  - intros p <-. unfold Project.iter_clips, Timeline.iter_clips, Project.tracks.
    induction (Timeline.enumerate (Timeline.tracks (Project.timeline p))) as [|[i tr] r IH];
      simpl; [reflexivity|].
    rewrite IH, map_app, map_map. reflexivity.
Qed.


(** ** player.rs: the buffers of write_next_block *)

Section GenLoop.
Context {G : Type} (gen_next : G -> G * Q).

Lemma gen_loop_length i k buf g push rec :
  length (fst (fst (Player.gen_loop gen_next i k buf g push rec))) = length buf.
Proof.
  revert i buf g rec. induction k as [|k IH]; intros i buf g rec; simpl; [reflexivity|].
  destruct (gen_next g) as [g' sample]. rewrite IH. apply length_insert.
Qed.

End GenLoop.


Lemma usize_add_small (a b : nat) :
  (Z.of_nat a + Z.of_nat b < 2 ^ 64)%Z -> Player.usize_add a b = a + b.
Proof.
  intros H. unfold Player.usize_add.
  rewrite Z.mod_small by lia. rewrite <- Nat2Z.inj_add. apply Nat2Z.id.
Qed.

(** ** The player's playhead *)

(** C3: a [write_next_block] of [out_len / channels] host frames that does not
    panic (a positive channel count, a buffer resize that fits [isize::MAX]
    bytes, and, when the two rates differ, a positive project rate and at
    least 2 samples in the grown buffer) renders
    [n = (N as f64 * (Rs as f64 / Rd as f64)) as usize] source samples, the f64
    product truncated toward zero; a playing player's playhead moves by [n]
    ([usize] addition, exact below 2^64) and then wraps to 0 when it passes
    the timeline's length while not recording; a paused player's playhead
    stays. *)
Theorem C3_playhead_advance {G : Type} (gen_next : G -> G * Q) (p : Player.t)
    (pr : Project.t) (g : G) (out_len channels l : nat)
    (n := Player.src_samples (out_len / channels) (Project.sample_rate pr)
            (Player.config_sample_rate p))
    (Hch : channels <> 0)
    (Hlen : Timeline.len (Project.database pr) (Project.timeline pr) = Some l)
    (Hresize : Player.resize_overflows (length (Player.output_buf p)) n = false)
    (Hresample : Player.resample_panics (Project.sample_rate pr)
                   (Player.config_sample_rate p)
                   (Nat.max (length (Player.output_buf p)) n) = false) :
  exists p' g',
    Player.write_next_block gen_next p pr g out_len channels = Some (p', g') /\
    Player.time p' =
      (if Player.playing_project p
       then (if (l <? Player.usize_add (Player.time p) n) && negb (Player.recording p)
             then 0 else Player.usize_add (Player.time p) n)
       else Player.time p) /\
    ((Z.of_nat (Player.time p) + Z.of_nat n < 2 ^ 64)%Z ->
     Player.usize_add (Player.time p) n = Player.time p + n).
Proof.
  unfold Player.write_next_block.
  rewrite (proj2 (Nat.eqb_neq _ _) Hch). cbv zeta. fold n. rewrite Hresize.
  set (buf := if length (Player.output_buf p) <? n
              then Player.output_buf p ++ repeat 0%Q (n - length (Player.output_buf p))
              else Player.output_buf p).
  assert (Hbuf : length buf = Nat.max (length (Player.output_buf p)) n).
  { unfold buf. destruct (Nat.ltb_spec (length (Player.output_buf p)) n).
    - rewrite length_app, repeat_length. lia.
    - lia. }
  pose proof (usize_add_small (Player.time p) n) as Hsmall.
  destruct (Player.playing_project p) eqn:Epl.
  - assert (Hne : Timeline.tracks (Project.timeline pr) <> []).
    { intros E. apply (timeline_len_none (Project.database pr)) in E. congruence. }
    destruct (timeline_render_spec (Project.database pr) (Project.timeline pr)
                (Player.time p) n Hne) as [block [Hr [Hbl _]]].
    rewrite Hr, Hlen.
    pose proof (gen_loop_length gen_next 0 n (block ++ skipn n buf) g
                  (true && Player.recording p) (Player.record_buf p)) as Hgl.
    destruct (Player.gen_loop gen_next 0 n (block ++ skipn n buf) g _ _)
      as [[buf' g'] rec'] eqn:Eg.
    cbn [fst] in Hgl. rewrite length_app, length_skipn in Hgl.
    replace (length buf') with (Nat.max (length (Player.output_buf p)) n) by lia.
    rewrite Hresample. eexists _, g'. split; [reflexivity|]. split; [reflexivity|exact Hsmall].
  - pose proof (gen_loop_length gen_next 0 n (repeat 0%Q (length buf)) g
                  (false && Player.recording p) (Player.record_buf p)) as Hgl.
    destruct (Player.gen_loop gen_next 0 n (repeat 0%Q (length buf)) g _ _)
      as [[buf' g'] rec'] eqn:Eg.
    cbn [fst] in Hgl. rewrite repeat_length in Hgl.
    replace (length buf') with (Nat.max (length (Player.output_buf p)) n) by lia.
    rewrite Hresample. eexists _, g'. split; [reflexivity|]. split; [reflexivity|exact Hsmall].
Qed.

(** A playing player at 48000 Hz on a 200-sample timeline at 44100 Hz, with
    its playhead at 100: 128 frames render 117 samples and the playhead
    passes the end and wraps to 0. *)
Lemma C3_witness :
  exists p' g',
    Player.write_next_block (fun u : unit => (u, 0%Q))
      {| Player.config_sample_rate := 48000; Player.output_buf := repeat 0%Q 128;
         Player.playing_project := true; Player.time := 100; Player.recording := false;
         Player.record_track := 0; Player.record_start := 0; Player.record_buf := [] |}
      (mk_project (repeat 0%Q 200)) tt 128 1 = Some (p', g') /\
    Player.time p' = 0.
Proof.
  assert (Hlen : Timeline.len (Project.database (mk_project (repeat 0%Q 200)))
                   (Project.timeline (mk_project (repeat 0%Q 200))) = Some 200)
    by (vm_compute; reflexivity).
  assert (Hresize : Player.resize_overflows 128 (Player.src_samples (128 / 1) 44100 48000) = false)
    by (vm_compute; reflexivity).
  assert (Hresample : Player.resample_panics 44100 48000
            (Nat.max 128 (Player.src_samples (128 / 1) 44100 48000)) = false)
    by (vm_compute; reflexivity).
  destruct (C3_playhead_advance (fun u : unit => (u, 0%Q))
              {| Player.config_sample_rate := 48000; Player.output_buf := repeat 0%Q 128;
                 Player.playing_project := true; Player.time := 100; Player.recording := false;
                 Player.record_track := 0; Player.record_start := 0; Player.record_buf := [] |}
              (mk_project (repeat 0%Q 200)) tt 128 1 200 ltac:(discriminate) Hlen
              Hresize Hresample) as [p' [g' [E [Ht _]]]].
  exists p', g'. split; [exact E|]. rewrite Ht. vm_compute. reflexivity.
Defined.

(** ** sine.rs: the phase of [SineGenerator::next] *)

(** X13: when the note's frequency is at most the sample rate, one
    [SineGenerator::next] keeps a phase in [0, 2 PI] in that range: the step
    [2 PI * freq] is at most [2 PI] and one wrap brings the sum back; a
    generator that is off keeps its phase. *)
Theorem sine_next_phase_in_range (g : Sine.t) (r : R)
    (Hsr : (0 < Sine.sample_rate g)%nat) (Hph : Sine.phase g = Sine.Fin r)
    (Hr : (0 <= r <= 2 * PI)%R)
    (Hhz : (440 * Rpower 2 ((INR (Sine.note g) - 69) / 12) <= INR (Sine.sample_rate g))%R) :
  exists r', Sine.phase (fst (Sine.next g)) = Sine.Fin r' /\ (0 <= r' <= 2 * PI)%R.
Proof.
  unfold Sine.next. destruct (Sine.on g) eqn:Hon; cbn [negb fst].
  2: { exists r. split; [exact Hph | exact Hr]. }
  set (hz := (440 * Rpower 2 ((INR (Sine.note g) - 69) / 12))%R) in *.
  assert (Hhz0 : (0 < hz)%R).
  { unfold hz, Rpower. pose proof (exp_pos ((INR (Sine.note g) - 69) / 12 * ln 2)). lra. }
  assert (Hsr0 : (0 < INR (Sine.sample_rate g))%R) by (apply lt_0_INR; exact Hsr).
  assert (Hf : (0 < hz / INR (Sine.sample_rate g) <= 1)%R).
  { split; [apply Rdiv_lt_0_compat; assumption|].
    apply (Rmult_le_reg_r (INR (Sine.sample_rate g))); [exact Hsr0|].
    unfold Rdiv. rewrite Rmult_assoc, Rinv_l, Rmult_1_r, Rmult_1_l by lra. exact Hhz. }
  pose proof SineProps.two_pi_pos as Hpi.
  assert (Hstep : (0 < 2 * PI * (hz / INR (Sine.sample_rate g)) <= 2 * PI)%R).
  { split; [apply Rmult_lt_0_compat; lra|].
    rewrite <- (Rmult_1_r (2 * PI)) at 2. apply Rmult_le_compat_l; lra. }
  unfold Sine.midi_note_to_hz. fold hz. rewrite Hph.
  unfold Sine.fdiv. rewrite (SineProps.sign_of_pos _ Hsr0).
  unfold Sine.two_pi. cbn [Sine.fmul Sine.fadd Sine.phase].
  unfold Sine.flt, Sine.fgt, Sine.fsub, Sine.fneg. cbn [Sine.fadd].
  destruct (Rlt_dec (2 * PI) (r + 2 * PI * (hz / INR (Sine.sample_rate g)))) as [Hgt|Hle].
  - destruct (Rlt_dec (r + 2 * PI * (hz / INR (Sine.sample_rate g)) + - (2 * PI)) 0);
      [lra|].
    eexists. split; [reflexivity|]. lra.
  - destruct (Rlt_dec (r + 2 * PI * (hz / INR (Sine.sample_rate g))) 0); [lra|].
    eexists. split; [reflexivity|]. lra.
Qed.

Lemma sine_next_phase_in_range_witness :
  exists r', Sine.phase (fst (Sine.next (Sine.handle (Sine.new 4000) (Sine.NoteOn 69 100))))
               = Sine.Fin r' /\ (0 <= r' <= 2 * PI)%R.
Proof.
  apply (sine_next_phase_in_range (Sine.handle (Sine.new 4000) (Sine.NoteOn 69 100)) 0%R).
  - cbn [Sine.handle Sine.new Sine.sample_rate]. apply Nat.ltb_lt. vm_compute. reflexivity.
  - reflexivity.
  - pose proof SineProps.two_pi_pos. lra.
  - cbn [Sine.handle Sine.new Sine.note Sine.sample_rate].
    rewrite !INR_IZR_INZ. change (Z.of_nat 69) with 69%Z. change (Z.of_nat 4000) with 4000%Z.
    replace ((IZR 69 - 69) / 12)%R with 0%R by lra.
    rewrite Rpower_O by lra. lra.
Defined.

(** ** clip.rs: the samples of [Clip::load_wav] *)

Lemma step_by_from_spec {A} (n i : nat) (l : list A) (d : A) :
  0 < n -> i < n ->
  length (Wav.step_by_from n i l) = (length l + (n - 1 - i)) / n /\
  forall k, nth k (Wav.step_by_from n i l) d = nth (i + k * n) l d.
Proof.
  intros Hn. revert i. induction l as [|x l IH]; intros i Hi.
  - split; [simpl; symmetry; apply Nat.div_small; lia|].
    intros k. simpl. destruct k; destruct (i + _); reflexivity.
  - destruct i as [|i]; simpl.
    + destruct (IH (n - 1)) as [Hl Hk]; [lia|]. split.
      * rewrite Hl, Nat.sub_diag, Nat.add_0_r.
        assert (E : S (length l + (n - 1 - 0)) = length l + 1 * n) by lia.
        rewrite E, Nat.div_add by lia. lia.
      * intros [|k]; [reflexivity|]. rewrite Hk.
        replace (S k * n) with (S (n - 1 + k * n)) by lia. reflexivity.
    + destruct (IH i) as [Hl Hk]; [lia|]. split.
      * rewrite Hl. f_equal. lia.
      * intros k. rewrite Hk. reflexivity.
Qed.

(** X14: [Clip::load_wav] fails with [ClipReadError] when the file cannot be
    opened or a sample cannot be read (the first failure in order), panics on
    a spec with 0 channels, and otherwise keeps the first channel of each
    frame: the clip has [ceil(len / channels)] samples and its sample [k] is
    the converted sample [k * channels]; it never returns
    [UnsupportedSampleFormat]. *)
Theorem load_wav_spec (open : string -> string + (Wav.WavSpec * list (string + Z)))
    (path : string) :
  match open path with
  | inl e => Wav.load_wav open path = Some (inl (Wav.ClipReadError e))
  | inr (spec, samples) =>
      match Wav.collect_results samples with
      | inl e =>
          Wav.load_wav open path = Some (inl (Wav.ClipReadError e)) /\
          exists pre post, samples = map inr pre ++ inl e :: post
      | inr raw =>
          samples = map inr raw /\
          (Wav.channels spec = 0 -> Wav.load_wav open path = None) /\
          (0 < Wav.channels spec ->
           exists c, Wav.load_wav open path = Some (inr c) /\
             clip_len c = (length raw + (Wav.channels spec - 1)) / Wav.channels spec /\
             forall k, k < clip_len c ->
               nth k (data c) 0%Q =
                 Wav.int_sample_to_f32 (Wav.bits_per_sample spec)
                   (nth (k * Wav.channels spec) raw 0%Z))
      end
  end /\
  forall b, Wav.load_wav open path <> Some (inl (Wav.UnsupportedSampleFormat b)).
Proof.
  assert (Hcol : forall samples : list (string + Z),
            match Wav.collect_results samples with
            | inl e => exists pre post, samples = map inr pre ++ inl e :: post
            | inr raw => samples = map inr raw
            end).
  { induction samples as [|[e|x] samples IH]; simpl.
    - reflexivity.
    - exists [], samples. reflexivity.
    - destruct (Wav.collect_results samples) as [e|xs].
      + destruct IH as [pre [post ->]]. exists (x :: pre), post. reflexivity.
      + rewrite IH. reflexivity. }
  split.
  - unfold Wav.load_wav. destruct (open path) as [e|[spec samples]]; [reflexivity|].
    specialize (Hcol samples).
    destruct (Wav.collect_results samples) as [e|raw]; [split; [reflexivity|exact Hcol]|].
    split; [exact Hcol|]. split.
    + intros ->. reflexivity.
    + intros Hch. destruct (Nat.eqb_spec (Wav.channels spec) 0) as [E|_]; [lia|].
      eexists. split; [reflexivity|].
      destruct (step_by_from_spec (Wav.channels spec) 0
                  (map (Wav.int_sample_to_f32 (Wav.bits_per_sample spec)) raw)
                  (Wav.int_sample_to_f32 (Wav.bits_per_sample spec) 0%Z) Hch Hch)
        as [Hl Hk].
      unfold clip_len, Wav.step_by. cbn [data]. rewrite Hl, length_map, Nat.sub_0_r.
      split; [reflexivity|].
      intros k Hk'.
      rewrite (nth_indep _ 0%Q (Wav.int_sample_to_f32 (Wav.bits_per_sample spec) 0%Z)).
      2: { rewrite Hl, length_map, Nat.sub_0_r. exact Hk'. }
      rewrite Hk, Nat.add_0_l, map_nth. reflexivity.
  - intros b. unfold Wav.load_wav.
    destruct (open path) as [e|[spec samples]]; [congruence|].
    destruct (Wav.collect_results samples); [congruence|].
    destruct (_ =? 0); congruence.
Qed.

(** X15: the divisor [(1 << bits_per_sample) / 2 - 1] of [load_wav], an
    [i32] in the release build, is [2^(bits - 1) - 1] for 2 to 30 bits
    (127, 32767 and 8388607 for 8, 16 and 24 bits), but the shift wraps at
    31 bits, giving [-2^30 - 1], and the shift by 32 is a shift by 0,
    giving [-1], so 32-bit samples are divided by [-1]; the divisor depends
    only on [bits mod 32]. *)
Theorem wav_scale_values (bits : nat) :
  Wav.wav_scale bits = Wav.wav_scale (bits mod 32) /\
  (2 <= bits <= 30 -> Wav.wav_scale bits = (2 ^ (Z.of_nat bits - 1) - 1)%Z) /\
  Wav.wav_scale 31 = (- 2 ^ 30 - 1)%Z /\
  Wav.wav_scale 32 = (-1)%Z.
Proof.
  split.
  { unfold Wav.wav_scale. rewrite Nat2Z.inj_mod, Zmod_mod. reflexivity. }
  split; [|split; vm_compute; reflexivity].
  intros Hb.
  assert (Hall : forallb (fun b => Z.eqb (Wav.wav_scale b) (2 ^ (Z.of_nat b - 1) - 1))
                   (seq 2 29) = true) by (vm_compute; reflexivity).
  rewrite forallb_forall in Hall. apply Z.eqb_eq, Hall, in_seq. lia.
Qed.

(** ** project.rs: [Project::add_clip] *)

(** X16: [Project::add_clip(track, time, clip)] panics when [track] is not
    a track of the project; otherwise it returns the clip, stores it under an
    id that was free, appends an instance of that id at [time] to the end of
    track [track], and leaves the sample rate, the other tracks and every
    other clip of the database as they were (for a database whose ids are
    below its size, as [new] and [add] keep it). *)
Theorem project_add_clip_spec (p : Project.t) (i time : nat) (clip : Clip)
    (Hinv : ids_below_size (Project.database p)) :
  (length (Project.tracks p) <= i -> Project.add_clip p i time clip = None) /\
  (i < length (Project.tracks p) ->
   exists p' tr id,
     Project.add_clip p i time clip = Some (p', clip) /\
     Project.sample_rate p' = Project.sample_rate p /\
     length (Project.tracks p') = length (Project.tracks p) /\
     (forall j, j <> i -> Project.tracks p' !! j = Project.tracks p !! j) /\
     Project.tracks p !! i = Some tr /\
     Project.tracks p' !! i = Some (Track.instantiate_clip tr id time) /\
     ClipDatabase.get (Project.database p) id = None /\
     ClipDatabase.get (Project.database p') id = Some clip /\
     (forall id', id' <> id ->
        ClipDatabase.get (Project.database p') id' = ClipDatabase.get (Project.database p) id') /\
     ids_below_size (Project.database p')).
Proof.
  unfold Project.add_clip. split.
  - intros Hi. rewrite lookup_ge_None_2 by exact Hi. reflexivity.
  - intros Hi. destruct (lookup_lt_is_Some_2 _ _ Hi) as [tr Etr]. rewrite Etr.
    unfold Track.add_clip, ClipDatabase.add.
    set (id := size (ClipDatabase.clips (Project.database p))).
    exists {| Project.sample_rate := Project.sample_rate p;
              Project.timeline :=
                {| Timeline.tracks :=
                     <[i := Track.instantiate_clip tr id time]> (Project.tracks p) |};
              Project.database :=
                {| ClipDatabase.clips := <[id := clip]> (ClipDatabase.clips (Project.database p)) |} |},
           tr, id.
    split; [reflexivity|]. split; [reflexivity|]. split; [apply length_insert|].
    split; [intros j Hj; apply list_lookup_insert_ne; congruence|].
    split; [reflexivity|]. split; [apply list_lookup_insert_eq; exact Hi|].
    split; [exact (ids_below_size_fresh _ Hinv)|].
    split; [unfold ClipDatabase.get; cbn; apply lookup_insert_eq|].
    split; [intros id' Hid; unfold ClipDatabase.get; cbn; apply lookup_insert_ne; congruence|].
    exact (ids_below_size_add (Project.database p) clip Hinv).
Qed.

Lemma project_add_clip_spec_witness :
  ids_below_size (Project.database (mk_project [1]%Q)) /\
  exists p' tr id,
    Project.add_clip (mk_project [1]%Q) 0 7 {| data := [2]%Q |} = Some (p', {| data := [2]%Q |}) /\
    Project.tracks (mk_project [1]%Q) !! 0 = Some tr /\
    Project.tracks p' !! 0 = Some (Track.instantiate_clip tr id 7) /\
    ClipDatabase.get (Project.database p') id = Some {| data := [2]%Q |}.
Proof.
  assert (H : ids_below_size (Project.database (mk_project [1]%Q))).
  { unfold mk_project. cbn [Project.database].
    apply (ids_below_size_add ClipDatabase.new), ids_below_size_new. }
  split; [exact H|].
  destruct (project_add_clip_spec (mk_project [1]%Q) 0 7 {| data := [2]%Q |} H) as [_ Hok].
  destruct Hok as [p' [tr [id [E1 [_ [_ [_ [E2 [E3 [_ [E4 _]]]]]]]]]]]; [vm_compute; lia|].
  exists p', tr, id. auto.
Defined.
